(** * A card-deck service: shallow embedding of [main.go]

    The service keeps one row per deck in a SQLite table
    [decks (id, cards, piged, upcoming)].  The three TEXT columns hold the
    JSON encodings of Go slices; the embedding stores the decoded slices.
    A decoded string is valid UTF-8 and [encoding/json] gives it back
    unchanged, so the codec is the identity on what is read from a row; it
    is not on text that comes from a request, where it replaces every
    invalid byte ([GoJSON.jsonString], used by [addCards]).  The process-wide mutex
    [mu] makes every handler body one atomic step, so a handler is a
    function from the store to a new store and a reply.  A [SELECT] fails
    only when no row has the key and an [INSERT] only on a duplicate key;
    other storage failures are outside the model.

    Library functions the handlers call ([strconv.Atoi], [strings.Split],
    [rand.Shuffle], [time.Now], [uuid.New]) are modelled from their
    documented behaviour; the clock, the random source and the fresh
    identifier are explicit arguments. *)

From stdpp Require Import base option list gmap strings.
From Stdlib Require Import ZArith Ascii.

Local Open Scope string_scope.
Local Open Scope list_scope.
Local Open Scope Z_scope.

(** ** Library models *)

Module GoStrconv.

(** The value of a decimal digit byte, as [ch -= '0'; ch > 9] tests it. *)
Definition digit (c : ascii) : option Z :=
  let n := Z.of_N (N_of_ascii c) in
  if (48 <=? n) && (n <=? 57) then Some (n - 48) else None.

Fixpoint digits (s : string) (n : Z) : option Z :=
  match s with
  | EmptyString => Some n
  | String ch s' =>
      match digit ch with
      | Some d => digits s' (n * 10 + d)
      | None => None
      end
  end.

Definition minInt : Z := - 2 ^ 63.
Definition maxInt : Z := 2 ^ 63 - 1.

(** [strconv.Atoi] on a 64-bit platform: an optional sign, one or more
    decimal digits, and a value that fits [int]; [None] is a non-nil
    error. *)
Definition Atoi (s : string) : option Z :=
  match s with
  | EmptyString => None
  | String c rest =>
      let neg := Ascii.eqb c "-" in
      let body := if neg || Ascii.eqb c "+" then rest else s in
      match body with
      | EmptyString => None
      | _ =>
          match digits body 0 with
          | Some n =>
              let v := if neg then - n else n in
              if (minInt <=? v) && (v <=? maxInt) then Some v else None
          | None => None
          end
      end
  end.

End GoStrconv.

Module GoStrings.

(** [strings.Split(s, sep)] for a one-byte separator: the substrings
    between the separators, in order; never an empty slice. *)
Fixpoint Split (s : string) (sep : ascii) : list string :=
  match s with
  | EmptyString => [EmptyString]
  | String c s' =>
      if Ascii.eqb c sep then EmptyString :: Split s' sep
      else
        match Split s' sep with
        | seg :: segs => String c seg :: segs
        | [] => [String c EmptyString]
        end
  end.

(** Occurrences of a byte in a string. *)
Fixpoint Count (s : string) (sep : ascii) : nat :=
  match s with
  | EmptyString => 0%nat
  | String c s' => ((if Ascii.eqb c sep then 1 else 0) + Count s' sep)%nat
  end.

(** [strings.Join] for a one-byte separator. *)
Fixpoint Join (segs : list string) (sep : ascii) : string :=
  match segs with
  | [] => EmptyString
  | [seg] => seg
  | seg :: segs' => seg +:+ String sep (Join segs' sep)
  end.

End GoStrings.

Module GoRand.
Section Shuffle.
Context {A : Type}.

(** [s[i], s[j] = s[j], s[i]]; an index out of range panics ([None]). *)
Definition swap (i j : nat) (s : list A) : option (list A) :=
  match s !! i, s !! j with
  | Some x, Some y => Some (<[i:=y]> (<[j:=x]> s))
  | _, _ => None
  end.

(** The loop [for ; i > 0; i-- { j := r.int31n(i+1); swap(i, j) }];
    [src i] is the raw number the source yields at step [i], and
    [int31n] reduces it into [0, i]. *)
Fixpoint shuffle_from (src : nat → nat) (i : nat) (s : list A)
  : option (list A) :=
  match i with
  | O => Some s
  | S i' =>
      match swap i (src i mod (i + 1))%nat s with
      | Some s' => shuffle_from src i' s'
      | None => None
      end
  end.

(** [rand.Shuffle(len(s), swap)]: Fisher-Yates from [i = n - 1]. *)
Definition Shuffle (src : nat → nat) (s : list A) : option (list A) :=
  shuffle_from src (length s - 1)%nat s.
End Shuffle.
End GoRand.

Module GoJSON.

Definition byte (c : ascii) : Z := Z.of_N (N_of_ascii c).

Definition between (lo hi : Z) (c : ascii) : bool :=
  (lo <=? byte c) && (byte c <=? hi).

(** [utf8.DecodeRuneInString] as the encoder uses it: the number of bytes
    of the well-formed sequence that starts [s], or [None] when the
    result is [RuneError] with size 1.  The first byte selects the size and
    the range accepted for the second byte (the tables [first] and
    [acceptRanges]); the other bytes are continuation bytes 0x80..0xBF. *)
Definition runeSize (s : string) : option nat :=
  match s with
  | EmptyString => None
  | String s0 rest =>
      let b := byte s0 in
      if b <? 128 then Some 1%nat
      else if (b <? 194) || (244 <? b) then None
      else
        let sz := if b <? 224 then 2%nat else if b <? 240 then 3%nat
                  else 4%nat in
        let lo := if b =? 224 then 160 else if b =? 240 then 144 else 128 in
        let hi := if b =? 237 then 159 else if b =? 244 then 143 else 191 in
        match rest with
        | EmptyString => None
        | String s1 rest1 =>
            if negb (between lo hi s1) then None
            else if (sz <=? 2)%nat then Some 2%nat
            else
              match rest1 with
              | EmptyString => None
              | String s2 rest2 =>
                  if negb (between 128 191 s2) then None
                  else if (sz <=? 3)%nat then Some 3%nat
                  else
                    match rest2 with
                    | EmptyString => None
                    | String s3 _ =>
                        if negb (between 128 191 s3) then None
                        else Some 4%nat
                    end
              end
        end
  end.

(** U+FFFD in UTF-8: the bytes EF BF BD. *)
Definition replacement (rest : string) : string :=
  String (ascii_of_nat 239)
    (String (ascii_of_nat 191) (String (ascii_of_nat 189) rest)).

(** The loop of the string encoder, read back by the decoder: a
    well-formed sequence is copied ([pending] counts the bytes of it still
    to copy), a byte that starts none is replaced by U+FFFD.  Escapes are
    undone by the decoder and leave no trace. *)
Fixpoint jsonBytes (pending : nat) (s : string) : string :=
  match s with
  | EmptyString => EmptyString
  | String c rest =>
      match pending with
      | S pending' => String c (jsonBytes pending' rest)
      | O =>
          match runeSize s with
          | Some size => String c (jsonBytes (size - 1) rest)
          | None => replacement (jsonBytes 0 rest)
          end
      end
  end.

(** What [json.Unmarshal] reads from the [json.Marshal] of the string [s]. *)
Definition jsonString (s : string) : string := jsonBytes 0 s.

(** Text of 7-bit bytes only. *)
Fixpoint isASCII (s : string) : bool :=
  match s with
  | EmptyString => true
  | String c rest => (byte c <? 128) && isASCII rest
  end.

End GoJSON.

Import GoStrconv GoStrings GoRand GoJSON.

(** ** Data model *)

Record Card := mkCard {
  Code : string;
  Rank : string;
  Suit : string;
  Image : string
}.

Record DrawnCard := mkDrawnCard {
  Drawn_Code : string;
  Drawn_Time : string
}.

Record Deck := mkDeck {
  ID : string;
  Cards : list Card;
  Remaining : Z
}.

Record Request := mkRequest {
  Type_ : string;
  DeckID : string;
  Params : list string
}.

Record Response := mkResponse {
  Resp_Deck : Deck;
  Resp_Drawn : list DrawnCard;
  Resp_Error : option string
}.

(** Go zero values. *)
Definition zeroDeck : Deck := mkDeck "" [] 0.
Definition errorResponse (msg : string) : Response :=
  mkResponse zeroDeck [] (Some msg).
Definition deckResponse (d : Deck) : Response :=
  mkResponse d [] None.

(** What a handler writes to its [http.ResponseWriter]. *)
Inductive HttpReply (A : Type) : Type :=
  | HttpError (msg : string) (status : Z)
  | HttpJSON (body : A).
Arguments HttpError {A} msg status.
Arguments HttpJSON {A} body.

Definition StatusBadRequest : Z := 400.
Definition StatusNotFound : Z := 404.
Definition StatusInternalServerError : Z := 500.

(** ** The deck store *)

(** One row of the table [decks]; the key is the column [id]. *)
Record Row := mkRow {
  cards : list Card;
  piged : list DrawnCard;
  upcoming : list Card
}.

Abbreviation Store := (gmap string Row).

(** [INSERT INTO decks ...]: the primary key rejects a second row. *)
Definition db_insert (id : string) (r : Row) (db : Store) : option Store :=
  match db !! id with
  | Some _ => None
  | None => Some (<[id := r]> db)
  end.

(** [UPDATE decks SET upcoming = ? WHERE id = ?]. *)
Definition db_update_upcoming (id : string) (u : list Card) (db : Store)
  : Store :=
  alter (λ r, mkRow (cards r) (piged r) u) id db.

Definition len {A} (s : list A) : Z := Z.of_nat (length s).

(** ** Card model: [generateCards] *)

Definition ranks : list string :=
  ["2"; "3"; "4"; "5"; "6"; "7"; "8"; "9"; "10"; "j"; "q"; "k"; "a"].
Definition suits : list string := ["h"; "d"; "c"; "s"].

(** The card appended in the innermost loop. *)
Definition newCard (rank suit : string) : Card :=
  let code := rank +:+ suit in
  mkCard code rank suit ("/static/" +:+ code +:+ ".svg").

Definition jokerCard : Card :=
  mkCard "joker" "joker" "" "/static/joker.svg".

(** One iteration of [for i := 0; i < nbrPaquet; i++]: the two nested
    [range] loops, then the two joker appends. *)
Definition appendPack (jokers : bool) (cards : list Card) : list Card :=
  let cards :=
    foldl (λ cards suit,
             foldl (λ cards rank, cards ++ [newCard rank suit]) cards ranks)
          cards suits in
  if jokers then (cards ++ [jokerCard]) ++ [jokerCard] else cards.

Fixpoint generateLoop (n : nat) (jokers : bool) (cards : list Card)
  : list Card :=
  match n with
  | O => cards
  | S n' => generateLoop n' jokers (appendPack jokers cards)
  end.

Definition generateCards (nbrPaquet : Z) (jokers : bool) : list Card :=
  generateLoop (Z.to_nat nbrPaquet) jokers [].

(** ** Handlers *)

(** [createDeck]; [params] is the path after ["/deck/new/"], [deckID] the
    string [uuid.New()] returned. *)
Definition createDeck (params deckID : string) (db : Store)
  : Store * HttpReply Deck :=
  let parts := Split params "/" in
  let nbrPaquet :=
    match parts !! 0%nat with
    | Some p0 => match Atoi p0 with Some p => p | None => 1 end
    | None => 1
    end in
  let jokers :=
    match parts !! 1%nat with
    | Some p1 => String.eqb p1 "true"
    | None => false
    end in
  if 10 <? nbrPaquet then
    (db, HttpError "Too many Deckes" StatusInternalServerError)
  else
    let cards := generateCards nbrPaquet jokers in
    match db_insert deckID (mkRow cards [] cards) db with
    | None => (db, HttpError "Error creating deck" StatusInternalServerError)
    | Some db' => (db', HttpJSON (mkDeck deckID cards (len cards)))
    end.

(** The requests [handleDeckRequests] puts on [requestChannel]. *)
Definition drawReq (deckID count : string) : Request :=
  mkRequest "draw" deckID [count].
Definition shuffleReq (deckID : string) : Request :=
  mkRequest "shuffle" deckID [].

(** [drawCards]; [now] is [time.Now().Format(time.RFC3339)].  [None] is the
    run-time panic of [req.Params[0]] on an empty slice.  The reply sent on
    [req.ReplyCh] is returned. *)
Definition drawCards (now : string) (req : Request) (db : Store)
  : option (Store * Response) :=
  match Params req !! 0%nat with
  | None => None
  | Some p0 =>
      Some
        match Atoi p0 with
        | None => (db, errorResponse "Invalid number of cards")
        | Some nbrCarte =>
            if nbrCarte <? 1 then
              (db, errorResponse "Invalid number of cards")
            else
              match db !! DeckID req with
              | None => (db, errorResponse "Deck not found")
              | Some row =>
                  let upcomingCards := upcoming row in
                  if len upcomingCards =? 0 then
                    (db, errorResponse "Deck empty")
                  else
                    let nbrCarte :=
                      if len upcomingCards <? nbrCarte
                      then len upcomingCards else nbrCarte in
                    let drawnCards := take (Z.to_nat nbrCarte) upcomingCards in
                    let upcomingCards :=
                      drop (Z.to_nat nbrCarte) upcomingCards in
                    let drawnWithTime :=
                      foldl (λ acc card,
                               acc ++ [mkDrawnCard (Code card) now])
                            [] drawnCards in
                    let db :=
                      db_update_upcoming (DeckID req) upcomingCards db in
                    (db, deckResponse
                           (mkDeck (DeckID req) drawnCards
                                   (len upcomingCards)))
              end
        end
  end.

(** [shuffleDeck]; [src] is the reseeded random source.  [None] is a panic
    inside [rand.Shuffle]. *)
Definition shuffleDeck (src : nat → nat) (req : Request) (db : Store)
  : option (Store * Response) :=
  match db !! DeckID req with
  | None => Some (db, errorResponse "Deck not found")
  | Some row =>
      match Shuffle src (upcoming row) with
      | None => None
      | Some upcomingCards =>
          let db := db_update_upcoming (DeckID req) upcomingCards db in
          Some (db, deckResponse
                      (mkDeck (DeckID req) upcomingCards (len upcomingCards)))
      end
  end.

Definition parseCards (cardsStr : string) : list Card :=
  foldl (λ cards card, cards ++ [mkCard card "" "" ""]) []
        (Split cardsStr ",").

(** A card as [encoding/json] writes it and reads it back. *)
Definition jsonCard (c : Card) : Card :=
  mkCard (jsonString (Code c)) (jsonString (Rank c)) (jsonString (Suit c))
         (jsonString (Image c)).

(** [addCards].  The parsed cards leave the handler only through
    [json.Marshal] (the row) and the JSON encoder (the reply), so
    [newCards] holds them as those write them; their number is the same. *)
Definition addCards (deckID cardsStr : string) (db : Store)
  : Store * HttpReply Deck :=
  match db !! deckID with
  | None => (db, HttpError "Deck not found" StatusNotFound)
  | Some row =>
      let existingCards := cards row in
      let upcomingCards := upcoming row in
      let newCards := jsonCard <$> parseCards cardsStr in
      let upcomingCards := upcomingCards ++ newCards in
      let db := db_update_upcoming deckID upcomingCards db in
      let allCards := existingCards ++ upcomingCards in
      (db, HttpJSON (mkDeck deckID allCards (len upcomingCards)))
  end.

Definition showDrawnCards (deckID countStr : string) (db : Store)
  : Store * HttpReply (list DrawnCard) :=
  match db !! deckID with
  | None => (db, HttpError "Deck not found" StatusNotFound)
  | Some row =>
      let drawnCards := piged row in
      match Atoi countStr with
      | None => (db, HttpError "Invalid count" StatusBadRequest)
      | Some count =>
          if (count <? 0) || (len drawnCards <? count) then
            (db, HttpError "Invalid count" StatusBadRequest)
          else
            let response :=
              if 0 <? count
              then drop (Z.to_nat (len drawnCards - count)) drawnCards
              else drawnCards in
            (db, HttpJSON response)
      end
  end.

Definition showUpcomingCards (deckID countStr : string) (db : Store)
  : Store * HttpReply (list Card) :=
  match db !! deckID with
  | None => (db, HttpError "Deck not found" StatusNotFound)
  | Some row =>
      let upcomingCards := upcoming row in
      match Atoi countStr with
      | None => (db, HttpError "Invalid count" StatusBadRequest)
      | Some count =>
          if (count <? 0) || (len upcomingCards <? count) then
            (db, HttpError "Invalid count" StatusBadRequest)
          else
            let response :=
              if 0 <? count
              then take (Z.to_nat count) upcomingCards
              else upcomingCards in
            (db, HttpJSON response)
      end
  end.

(** ** The request serializer *)

(** What the environment supplies while one request is served. *)
Record Tick := mkTick {
  tick_now : string;
  tick_src : nat → nat
}.

(** One iteration of [for req := range requestChannel]: the [switch] on
    [req.Type]; other types get no reply. *)
Definition handleRequest (t : Tick) (req : Request) (db : Store)
  : option (Store * option Response) :=
  if String.eqb (Type_ req) "draw" then
    prod_map id Some <$> drawCards (tick_now t) req db
  else if String.eqb (Type_ req) "shuffle" then
    prod_map id Some <$> shuffleDeck (tick_src t) req db
  else Some (db, None).

(** [handleRequests] on the requests in the order the channel delivers
    them; the replies are collected in the same order. *)
Fixpoint handleRequests (reqs : list (Tick * Request)) (db : Store)
  : option (Store * list (option Response)) :=
  match reqs with
  | [] => Some (db, [])
  | (t, req) :: reqs' =>
      match handleRequest t req db with
      | None => None
      | Some (db', r) =>
          match handleRequests reqs' db' with
          | None => None
          | Some (db'', rs) => Some (db'', r :: rs)
          end
      end
  end.

(** ** The router *)

(** [strings.TrimPrefix(s, prefix)]: [s] without the leading [prefix], or
    [s] itself when it does not start with it. *)
Fixpoint cutPrefix (s prefix : string) {struct prefix} : option string :=
  match prefix with
  | EmptyString => Some s
  | String p prefix' =>
      match s with
      | EmptyString => None
      | String c s' => if Ascii.eqb c p then cutPrefix s' prefix' else None
      end
  end.

Definition TrimPrefix (s prefix : string) : string :=
  match cutPrefix s prefix with
  | Some rest => rest
  | None => s
  end.

Definition StatusMethodNotAllowed : Z := 405.
Definition MethodGet : string := "GET".
Definition MethodPost : string := "POST".

(** The JSON bodies the handlers under ["/deck/"] encode. *)
Inductive Body : Type :=
  | DeckBody (d : Deck)
  | DrawnBody (drawn : list DrawnCard)
  | CardsBody (cs : list Card).

Definition replyMap {A B} (f : A → B) (r : HttpReply A) : HttpReply B :=
  match r with
  | HttpError msg status => HttpError msg status
  | HttpJSON body => HttpJSON (f body)
  end.

(** [handleResponse]: every error of the serialized operations is sent
    with status 500. *)
Definition handleResponse (resp : Response) : HttpReply Body :=
  match Resp_Error resp with
  | Some msg => HttpError msg StatusInternalServerError
  | None => HttpJSON (DeckBody (Resp_Deck resp))
  end.

(** [requestChannel <- req; resp := <-req.ReplyCh; handleResponse(w, resp)]:
    the request is served by [handleRequests].  [None] is a panic of the
    serving goroutine, or a request that is never answered. *)
Definition submit (t : Tick) (req : Request) (db : Store)
  : option (Store * HttpReply Body) :=
  match handleRequest t req db with
  | Some (db', Some resp) => Some (db', handleResponse resp)
  | _ => None
  end.

(** [handleDeckRequests]; [method] is [r.Method], [path] is [r.URL.Path]
    and [cardsParam] is [r.URL.Query().Get("cards")]. *)
Definition handleDeckRequests
    (t : Tick) (method path cardsParam : string) (db : Store)
  : option (Store * HttpReply Body) :=
  let parts := Split (TrimPrefix path "/deck/") "/" in
  let methodNotAllowed :=
    Some (db, HttpError "Method not allowed" StatusMethodNotAllowed) in
  match parts with
  | [] => Some (db, HttpError "Invalid deck ID" StatusBadRequest)
  | deckID :: _ =>
      if String.eqb method MethodPost then
        match parts !! 1%nat with
        | Some action =>
            if String.eqb action "add" then
              Some (prod_map id (replyMap DeckBody)
                             (addCards deckID cardsParam db))
            else methodNotAllowed
        | None => methodNotAllowed
        end
      else if String.eqb method MethodGet then
        match parts !! 1%nat with
        | Some action =>
            if String.eqb action "draw" then
              match parts !! 2%nat with
              | None =>
                  Some (db, HttpError "Draw action requires parameters"
                                      StatusBadRequest)
              | Some count => submit t (mkRequest "draw" deckID [count]) db
              end
            else if String.eqb action "shuffle" then
              submit t (mkRequest "shuffle" deckID []) db
            else if String.eqb action "show" then
              match parts !! 2%nat, parts !! 3%nat with
              | Some showType, Some countStr =>
                  if String.eqb showType "0" then
                    Some (prod_map id (replyMap DrawnBody)
                                   (showDrawnCards deckID countStr db))
                  else if String.eqb showType "1" then
                    Some (prod_map id (replyMap CardsBody)
                                   (showUpcomingCards deckID countStr db))
                  else
                    Some (db, HttpError "Invalid show type" StatusBadRequest)
              | _, _ =>
                  Some (db, HttpError "Show action requires parameters"
                                      StatusBadRequest)
              end
            else methodNotAllowed
        | None => methodNotAllowed
        end
      else methodNotAllowed
  end.

(** ** Stores the service can reach *)

(** One HTTP exchange: a deck creation, or a request under ["/deck/"]. *)
Inductive exchange : Store → Store → Prop :=
  | exchange_create params deckID db :
      exchange db (createDeck params deckID db).1
  | exchange_deck t method path cardsParam db db' reply :
      handleDeckRequests t method path cardsParam db = Some (db', reply) →
      exchange db db'.

(** The stores that follow the empty table by exchanges. *)
Inductive reachable : Store → Prop :=
  | reachable_empty : reachable ∅
  | reachable_step db db' : reachable db → exchange db db' → reachable db'.

(** ** Cards handed out *)

(** The cards the draw requests for [deckID] were answered with, in serving
    order; [rs] are the replies to [reqs]. *)
Fixpoint dealt (deckID : string) (reqs : list (Tick * Request))
    (rs : list (option Response)) : list Card :=
  match reqs, rs with
  | (_, req) :: reqs', r :: rs' =>
      (if String.eqb (Type_ req) "draw" && String.eqb (DeckID req) deckID
       then from_option (λ r, Cards (Resp_Deck r)) [] r
       else [])
      ++ dealt deckID reqs' rs'
  | _, _ => []
  end.

(** ** Specification-side definitions *)

(** The 52 cards of one pack as the specification lists them: for each
    suit in [suits], each rank in [ranks]. *)
Definition specStandardPack : list Card :=
  suit ← suits; rank ← ranks; [newCard rank suit].

(** One pack, with its two jokers when they are enabled. *)
Definition specPack (jokers : bool) : list Card :=
  specStandardPack ++ (if jokers then [jokerCard; jokerCard] else []).

(** [generate(packCount, includeJokers)]: the packs one after another. *)
Definition specGenerate (packCount : nat) (jokers : bool) : list Card :=
  mjoin (replicate packCount (specPack jokers)).

(** A card of which only the code is populated. *)
Definition codeOnly (code : string) : Card := mkCard code "" "" "".

(** A deck of three added cards and no generated ones, built through the
    handlers: [new/0] followed by [add?cards=a,b,c]. *)
Definition threeCardStore : Store :=
  (addCards "d" "a,b,c" (createDeck "0" "d" ∅).1).1.

(** A fresh one-pack deck without jokers. *)
Definition onePackStore : Store := (createDeck "1/false" "d" ∅).1.

(** Three callers, each asking for one card of deck ["d"]. *)
Definition threeDraws : list (Tick * Request) :=
  [(mkTick "2024-05-01T10:00:00Z" id, drawReq "d" "1");
   (mkTick "2024-05-01T10:00:00Z" id, drawReq "d" "1");
   (mkTick "2024-05-01T10:00:01Z" id, drawReq "d" "1")].

(** ** Proof automation *)

(** Case analysis on the conjunctions, equivalences and existentials of
    an error classification. *)
Ltac classify :=
  repeat (simplify_eq;
          match goal with
          | |- _ ∧ _ => split
          | |- _ ↔ _ => split
          | |- ¬ _ => intro
          | |- _ → _ => intro
          | H : _ ∧ _ |- _ => destruct H
          | H : ∃ _, _ |- _ => destruct H
          end);
  simplify_eq; try done; try lia;
  try (match goal with H : ¬ _ |- _ => exfalso; apply H; clear H end);
  try done; try (eexists; split; [reflexivity|]); try done; try lia.

(** Unfold the router down to the handler bodies and split on every test. *)
Ltac route :=
  unfold handleDeckRequests, submit, handleRequest, drawCards, shuffleDeck,
    addCards, showDrawnCards, showUpcomingCards, handleResponse,
    errorResponse, deckResponse, replyMap, prod_map in *;
  cbn [Type_ DeckID Params Resp_Error Resp_Deck fst snd lookup list_lookup]
    in *;
  repeat (case_match; simplify_eq/=).

(** ** Library facts *)

Section ShuffleFacts.
Context {A : Type}.
Implicit Types s : list A.

Lemma swap_in_range i j s :
  (i < length s)%nat → (j < length s)%nat →
  ∃ s', swap i j s = Some s' ∧ s' ≡ₚ s.
Proof.
  intros [x Hx]%lookup_lt_is_Some_2 [y Hy]%lookup_lt_is_Some_2.
  unfold swap. rewrite Hx, Hy. eexists; split; [reflexivity|].
  by apply Permutation_insert_swap.
Qed.

Lemma shuffle_from_total src i s :
  (i < length s ∨ i = 0)%nat →
  ∃ s', shuffle_from src i s = Some s' ∧ s' ≡ₚ s.
Proof.
  revert s. induction i as [|i IH]; intros s Hi; cbn [shuffle_from].
  - by exists s.
  - destruct Hi as [Hi|?]; [|lia].
    destruct (swap_in_range (S i) (src (S i) mod (S i + 1))%nat s)
      as (s1 & -> & Hp1); [done| |].
    { pose proof (Nat.mod_upper_bound (src (S i)) (S i + 1)). lia. }
    destruct (IH s1) as (s2 & -> & Hp2).
    { left. rewrite (Permutation_length Hp1). lia. }
    exists s2. split; [done|]. by rewrite Hp2.
Qed.

Lemma Shuffle_total src s : ∃ s', Shuffle src s = Some s' ∧ s' ≡ₚ s.
Proof.
  apply shuffle_from_total. destruct s; simpl; [by right|left; lia].
Qed.
End ShuffleFacts.

Lemma Split_length s sep : length (Split s sep) = S (Count s sep).
Proof.
  induction s as [|c s IH]; simpl; [done|].
  destruct (Ascii.eqb c sep); simpl; [by rewrite IH|].
  destruct (Split s sep); simpl in *; lia.
Qed.

Lemma Join_Split s sep : Join (Split s sep) sep = s.
Proof.
  induction s as [|c s IH]; simpl; [done|].
  destruct (Ascii.eqb c sep) eqn:Hc.
  - apply Ascii.eqb_eq in Hc as ->.
    pose proof (Split_length s sep) as Hl.
    destruct (Split s sep) as [|seg segs]; [done|].
    simpl. simpl in IH. by rewrite IH.
  - pose proof (Split_length s sep) as Hl.
    destruct (Split s sep) as [|seg segs]; [done|].
    destruct segs; simpl in *; by rewrite <-IH.
Qed.

Lemma foldl_snoc {B C} (f : B → C) (acc : list C) (l : list B) :
  foldl (λ acc x, acc ++ [f x]) acc l = acc ++ (f <$> l).
Proof.
  revert acc. induction l as [|x l IH]; intros acc; simpl.
  - by rewrite app_nil_r.
  - by rewrite IH, <-app_assoc.
Qed.

(** ** Store facts *)

Lemma db_update_upcoming_lookup id u (db : Store) row :
  db !! id = Some row →
  db_update_upcoming id u db !! id = Some (mkRow (cards row) (piged row) u).
Proof.
  intros H. unfold db_update_upcoming. by rewrite lookup_alter_eq, H.
Qed.

Lemma db_update_upcoming_lookup_ne id id' u (db : Store) :
  id ≠ id' → db_update_upcoming id u db !! id' = db !! id'.
Proof. intros H. unfold db_update_upcoming. by rewrite lookup_alter_ne. Qed.

Lemma db_update_upcoming_piged id id' u (db : Store) :
  piged <$> db_update_upcoming id u db !! id' = piged <$> db !! id'.
Proof.
  destruct (decide (id = id')) as [->|Hne].
  - unfold db_update_upcoming. rewrite lookup_alter_eq.
    by destruct (db !! id').
  - by rewrite db_update_upcoming_lookup_ne.
Qed.

(** ** Card model *)

Lemma appendPack_specPack jokers cs :
  appendPack jokers cs = cs ++ specPack jokers.
Proof.
  unfold appendPack, specPack, suits. cbn [foldl].
  rewrite !foldl_snoc.
  destruct jokers; rewrite <-!app_assoc; do 1 f_equal.
Qed.

Lemma generateLoop_specGenerate n jokers cs :
  generateLoop n jokers cs = cs ++ specGenerate n jokers.
Proof.
  revert cs. induction n as [|n IH]; intros cs; simpl.
  - by rewrite app_nil_r.
  - rewrite IH, appendPack_specPack. unfold specGenerate. simpl.
    by rewrite <-app_assoc.
Qed.

Lemma specPack_length jokers :
  length (specPack jokers) = if jokers then 54%nat else 52%nat.
Proof. by destruct jokers. Qed.

Lemma specGenerate_length n jokers :
  length (specGenerate n jokers) = (n * length (specPack jokers))%nat.
Proof.
  unfold specGenerate. induction n as [|n IH]; simpl; [done|].
  rewrite length_app. simpl in IH. rewrite IH. lia.
Qed.

(** C6. For a pack count between 1 and 10 and either jokers flag,
    [generateCards] returns the packs one after another, each pack being
    the four suits in the order h, d, c, s with the thirteen ranks 2, 3, 4,
    5, 6, 7, 8, 9, 10, j, q, k, a under each suit (code rank+suit, image
    derived from the code), followed by exactly two joker cards (empty
    suit, rank "joker") when jokers are enabled; the number of cards is
    [52 * packCount], plus [2 * packCount] with jokers. *)
Theorem generateCards_packs (packCount : Z) (jokers : bool) :
  1 ≤ packCount ≤ 10 →
  generateCards packCount jokers = specGenerate (Z.to_nat packCount) jokers
  ∧ len (generateCards packCount jokers)
    = 52 * packCount + (if jokers then 2 * packCount else 0)
  ∧ Suit <$> specStandardPack
    = (replicate 13 "h" ++ replicate 13 "d" ++ replicate 13 "c"
       ++ replicate 13 "s")
  ∧ Rank <$> specStandardPack
    = mjoin (replicate 4 ["2"; "3"; "4"; "5"; "6"; "7"; "8"; "9"; "10";
                          "j"; "q"; "k"; "a"])
  ∧ Code <$> specStandardPack
    = ["2h"; "3h"; "4h"; "5h"; "6h"; "7h"; "8h"; "9h"; "10h"; "jh"; "qh";
       "kh"; "ah";
       "2d"; "3d"; "4d"; "5d"; "6d"; "7d"; "8d"; "9d"; "10d"; "jd"; "qd";
       "kd"; "ad";
       "2c"; "3c"; "4c"; "5c"; "6c"; "7c"; "8c"; "9c"; "10c"; "jc"; "qc";
       "kc"; "ac";
       "2s"; "3s"; "4s"; "5s"; "6s"; "7s"; "8s"; "9s"; "10s"; "js"; "qs";
       "ks"; "as"]
  ∧ Forall (λ c, Image c = "/static/" +:+ Code c +:+ ".svg") specStandardPack
  ∧ specPack jokers
    = specStandardPack ++ (if jokers then [jokerCard; jokerCard] else [])
  ∧ jokerCard = mkCard "joker" "joker" "" "/static/joker.svg".
Proof.
  intros Hp.
  assert (generateCards packCount jokers
          = specGenerate (Z.to_nat packCount) jokers) as Heq.
  { unfold generateCards. by rewrite generateLoop_specGenerate. }
  split; [done|]. split.
  { rewrite Heq. unfold len.
    rewrite specGenerate_length, specPack_length. destruct jokers; lia. }
  split_and!; [done|done|done| |done|done].
  repeat constructor.
Qed.

Lemma generateCards_packs_witness :
  1 ≤ 2 ≤ 10 ∧ len (generateCards 2 true) = 52 * 2 + 2 * 2.
Proof.
  split; [lia|]. apply (generateCards_packs 2 true). lia.
Defined.

(** ** Add-cards parsing *)

Lemma parseCards_fmap cardsStr :
  parseCards cardsStr = codeOnly <$> Split cardsStr ",".
Proof. unfold parseCards. by rewrite (foldl_snoc codeOnly). Qed.

Lemma Code_codeOnly (segs : list string) : Code <$> (codeOnly <$> segs) = segs.
Proof. induction segs as [|seg segs IH]; [done|]. cbn. by f_equal. Qed.

(** C10. For every input string, [parseCards] yields one card per
    comma-separated segment, empty segments included: the codes of the
    parsed cards are the segments in order (joining them with commas gives
    the input back), their number is one more than the number of commas,
    and every parsed card has only its code populated.  On an existing deck
    an empty [cards] parameter appends exactly one card with the empty code
    to the upcoming pile, and any parameter makes the stored pile longer by
    its number of segments. *)
Theorem parseCards_one_card_per_segment
    (cardsStr deckID : string) (db : Store) (row : Row) :
  db !! deckID = Some row →
  Code <$> parseCards cardsStr = Split cardsStr ","
  ∧ Join (Code <$> parseCards cardsStr) "," = cardsStr
  ∧ length (parseCards cardsStr) = S (Count cardsStr ",")
  ∧ Forall (λ c, c = codeOnly (Code c)) (parseCards cardsStr)
  ∧ parseCards "" = [codeOnly ""]
  ∧ (addCards deckID "" db).1 !! deckID
    = Some (mkRow (cards row) (piged row) (upcoming row ++ [codeOnly ""]))
  ∧ (length ∘ upcoming <$> (addCards deckID cardsStr db).1 !! deckID)
    = Some (length (upcoming row) + S (Count cardsStr ","))%nat.
Proof.
  intros Hrow. rewrite parseCards_fmap, Code_codeOnly.
  repeat split.
  - apply Join_Split.
  - by rewrite length_fmap, Split_length.
  - apply Forall_fmap, Forall_forall. by intros seg _.
  - unfold addCards. rewrite Hrow. simpl.
    by apply db_update_upcoming_lookup.
  - unfold addCards. rewrite Hrow. cbn [fst].
    rewrite (db_update_upcoming_lookup _ _ _ row Hrow). cbn.
    by rewrite length_app, length_fmap, parseCards_fmap, length_fmap,
      Split_length.
Qed.

Lemma parseCards_one_card_per_segment_witness :
  Code <$> parseCards "as,,10h" = ["as"; ""; "10h"]
  ∧ (upcoming <$> (addCards "d" "" (createDeck "0" "d" ∅).1).1 !! "d")
    = Some [codeOnly ""].
Proof.
  pose proof (parseCards_one_card_per_segment "as,,10h" "d"
                (createDeck "0" "d" ∅).1 (mkRow [] [] []) eq_refl)
    as (H1 & _ & _ & _ & _ & H2 & _).
  split; [exact H1|]. by rewrite H2.
Defined.

(** ** Shuffle *)

(** C5. Shuffle on an existing deck never panics, and replaces the upcoming
    pile by a permutation of it: same cards and same codes with the same
    multiplicities, same length; the drawn pile and the full card list of
    the row are unchanged, and the reply carries the new order. *)
Theorem shuffleDeck_permutation
    (src : nat → nat) (deckID : string) (db : Store) (row : Row) :
  db !! deckID = Some row →
  ∃ db' shuffled,
    shuffleDeck src (shuffleReq deckID) db
    = Some (db', deckResponse (mkDeck deckID shuffled (len shuffled)))
    ∧ shuffled ≡ₚ upcoming row
    ∧ Code <$> shuffled ≡ₚ Code <$> upcoming row
    ∧ length shuffled = length (upcoming row)
    ∧ db' !! deckID = Some (mkRow (cards row) (piged row) shuffled)
    ∧ ∀ id, piged <$> db' !! id = piged <$> db !! id.
Proof.
  intros Hrow. unfold shuffleDeck. simpl. rewrite Hrow.
  destruct (Shuffle_total src (upcoming row)) as (shuffled & -> & Hperm).
  eexists _, shuffled. split; [reflexivity|].
  split; [done|]. split; [by rewrite Hperm|].
  split; [by rewrite Hperm|].
  split; [by apply db_update_upcoming_lookup|].
  intros id. apply db_update_upcoming_piged.
Qed.

Lemma shuffleDeck_permutation_witness :
  ∃ db' shuffled,
    shuffleDeck (λ i, 7 * i + 3)%nat (shuffleReq "d") threeCardStore
    = Some (db', deckResponse (mkDeck "d" shuffled (len shuffled)))
    ∧ shuffled ≡ₚ [codeOnly "a"; codeOnly "b"; codeOnly "c"].
Proof.
  destruct (shuffleDeck_permutation (λ i, 7 * i + 3)%nat "d" threeCardStore
              (mkRow [] [] [codeOnly "a"; codeOnly "b"; codeOnly "c"])
              eq_refl)
    as (db' & shuffled & H1 & H2 & _).
  exists db', shuffled. split; [exact H1|exact H2].
Defined.

(** ** Draw *)

Lemma len_nil_iff {A} (s : list A) : len s = 0 ↔ s = [].
Proof.
  unfold len. destruct s; simpl; [done|]. split; [lia|done].
Qed.

(** The successful path of [drawCards], with the clamped count. *)
Lemma drawCards_ok now deckID count (db : Store) row n :
  Atoi count = Some n → 1 ≤ n →
  db !! deckID = Some row → upcoming row ≠ [] →
  let k := Z.to_nat (Z.min n (len (upcoming row))) in
  drawCards now (drawReq deckID count) db
  = Some (db_update_upcoming deckID (drop k (upcoming row)) db,
          deckResponse (mkDeck deckID (take k (upcoming row))
                               (len (drop k (upcoming row))))).
Proof.
  intros Hn Hpos Hrow Hne. unfold drawCards. simpl. rewrite Hn.
  destruct (Z.ltb_spec n 1); [lia|]. rewrite Hrow.
  destruct (Z.eqb_spec (len (upcoming row)) 0) as [H0|_].
  { by apply len_nil_iff in H0. }
  destruct (Z.ltb_spec (len (upcoming row)) n).
  - by rewrite Z.min_r by lia.
  - by rewrite Z.min_l by lia.
Qed.

(** No path of [drawCards] writes the column [piged]. *)
Lemma drawCards_piged now req (db db' : Store) r id :
  drawCards now req db = Some (db', r) →
  piged <$> db' !! id = piged <$> db !! id.
Proof.
  unfold drawCards. intros H.
  destruct (Params req !! 0%nat); [|done].
  destruct (Atoi s) as [n|]; [|by simplify_eq].
  destruct (n <? 1); [by simplify_eq|].
  destruct (db !! DeckID req) as [row|] eqn:Hrow; [|by simplify_eq].
  destruct (len (upcoming row) =? 0); [by simplify_eq|].
  simplify_eq. apply db_update_upcoming_piged.
Qed.

(** C3. A draw whose count is a positive integer strictly greater than the
    number of cards in a non-empty upcoming pile succeeds: the reply has no
    error, carries exactly all the upcoming cards, reports 0 remaining, and
    the stored upcoming pile is empty afterwards. *)
Theorem drawCards_overdraw
    (now deckID count : string) (db : Store) (row : Row) (n : Z) :
  Atoi count = Some n →
  db !! deckID = Some row →
  upcoming row ≠ [] →
  len (upcoming row) < n →
  ∃ db',
    drawCards now (drawReq deckID count) db
    = Some (db', deckResponse (mkDeck deckID (upcoming row) 0))
    ∧ Resp_Error (deckResponse (mkDeck deckID (upcoming row) 0)) = None
    ∧ (upcoming <$> db' !! deckID) = Some [].
Proof.
  intros Hn Hrow Hne Hlt.
  assert (1 ≤ n) as Hpos by (unfold len in Hlt; lia).
  rewrite (drawCards_ok now deckID count db row n Hn Hpos Hrow Hne).
  rewrite Z.min_r by lia.
  replace (Z.to_nat (len (upcoming row))) with (length (upcoming row))
    by (unfold len; lia).
  rewrite drop_all, firstn_all. eexists. split; [reflexivity|].
  split; [done|].
  by rewrite (db_update_upcoming_lookup _ _ _ row).
Qed.

Lemma drawCards_overdraw_witness :
  ∃ db',
    drawCards "2024-05-01T10:00:00Z" (drawReq "d" "7") threeCardStore
    = Some (db', deckResponse
                   (mkDeck "d" [codeOnly "a"; codeOnly "b"; codeOnly "c"] 0))
    ∧ (upcoming <$> db' !! "d") = Some [].
Proof.
  destruct (drawCards_overdraw "2024-05-01T10:00:00Z" "d" "7" threeCardStore
              (mkRow [] [] [codeOnly "a"; codeOnly "b"; codeOnly "c"]) 7
              eq_refl eq_refl ltac:(discriminate) ltac:(reflexivity))
    as (db' & H1 & _ & H2).
  exists db'. split; [exact H1|exact H2].
Defined.

(** C4, as amended.  A draw always replies.  The error is "Invalid number
    of cards" exactly when the count is not a positive integer; it is "Deck
    not found" exactly when the count is a positive integer and no deck has
    the identifier; it is "Deck empty" exactly when the count is a positive
    integer and the deck exists with an empty upcoming pile.  In every
    failure case the reply carries no cards and the store is unchanged. *)
Theorem drawCards_errors (now deckID count : string) (db : Store) :
  ∃ db' r,
    drawCards now (drawReq deckID count) db = Some (db', r)
    ∧ (Resp_Error r = Some "Invalid number of cards"
       ↔ ¬ ∃ n, Atoi count = Some n ∧ 1 ≤ n)
    ∧ (Resp_Error r = Some "Deck not found"
       ↔ (∃ n, Atoi count = Some n ∧ 1 ≤ n) ∧ db !! deckID = None)
    ∧ (Resp_Error r = Some "Deck empty"
       ↔ (∃ n, Atoi count = Some n ∧ 1 ≤ n)
         ∧ ∃ row, db !! deckID = Some row ∧ upcoming row = [])
    ∧ (is_Some (Resp_Error r)
       → Cards (Resp_Deck r) = [] ∧ Resp_Drawn r = [] ∧ db' = db).
Proof.
  unfold drawCards. cbn [drawReq Params DeckID lookup list_lookup].
  destruct (Atoi count) as [n|] eqn:Hn.
  2:{ eexists _, _. split; [reflexivity|]. cbn. classify. }
  destruct (Z.ltb_spec n 1) as [Hlt|Hge].
  { eexists _, _. split; [reflexivity|]. cbn. classify. }
  destruct (db !! deckID) as [row|] eqn:Hrow.
  2:{ eexists _, _. split; [reflexivity|]. cbn. classify. }
  destruct (Z.eqb_spec (len (upcoming row)) 0) as [H0|Hne].
  { apply len_nil_iff in H0.
    eexists _, _. split; [reflexivity|]. cbn. classify. }
  assert (upcoming row ≠ []) by (by rewrite <-len_nil_iff).
  eexists _, _. split; [reflexivity|]. cbn. classify.
Qed.

(** C4, as stated, fails: with the count "0" and no deck "x" the error is
    "Invalid number of cards", not "Deck not found", so "Deck not found"
    is not the reply exactly when the deck is absent. *)
Lemma drawCards_not_found_not_exact :
  ¬ (∀ now deckID count (db db' : Store) r,
       drawCards now (drawReq deckID count) db = Some (db', r) →
       (Resp_Error r = Some "Deck not found" ↔ db !! deckID = None)).
Proof.
  intros H.
  specialize (H "2024-05-01T10:00:00Z" "x" "0" ∅ ∅
                (errorResponse "Invalid number of cards") eq_refl).
  destruct H as [_ H]. specialize (H eq_refl). discriminate H.
Qed.

(** ** Inspection *)

(** C7. On an existing deck, show-drawn and show-upcoming leave the store
    as it is.  A count that is not an integer, is negative, or exceeds the
    length of the pile is answered with "Invalid count" (400); the count 0
    returns the entire pile; any other count returns exactly the last
    [count] entries of the drawn pile, respectively the first [count]
    entries of the upcoming pile. *)
Theorem show_cards_count
    (deckID countStr : string) (db : Store) (row : Row) :
  db !! deckID = Some row →
  ((showDrawnCards deckID countStr db).1 = db
   ∧ (showUpcomingCards deckID countStr db).1 = db)
  ∧ ((¬ ∃ n, Atoi countStr = Some n ∧ 0 ≤ n ≤ len (piged row)) →
     (showDrawnCards deckID countStr db).2
     = HttpError "Invalid count" StatusBadRequest)
  ∧ ((¬ ∃ n, Atoi countStr = Some n ∧ 0 ≤ n ≤ len (upcoming row)) →
     (showUpcomingCards deckID countStr db).2
     = HttpError "Invalid count" StatusBadRequest)
  ∧ (Atoi countStr = Some 0 →
     (showDrawnCards deckID countStr db).2 = HttpJSON (piged row)
     ∧ (showUpcomingCards deckID countStr db).2 = HttpJSON (upcoming row))
  ∧ (∀ n, Atoi countStr = Some n → 0 < n ≤ len (piged row) →
     ∃ older latest,
       (showDrawnCards deckID countStr db).2 = HttpJSON latest
       ∧ piged row = older ++ latest ∧ len latest = n)
  ∧ (∀ n, Atoi countStr = Some n → 0 < n ≤ len (upcoming row) →
     ∃ next later,
       (showUpcomingCards deckID countStr db).2 = HttpJSON next
       ∧ upcoming row = next ++ later ∧ len next = n).
Proof.
  intros Hrow. unfold showDrawnCards, showUpcomingCards. rewrite Hrow.
  split_and!.
  - destruct (Atoi countStr) as [n|]; [|done].
    by destruct ((n <? 0) || (len (piged row) <? n)), (0 <? n).
  - destruct (Atoi countStr) as [n|]; [|done].
    by destruct ((n <? 0) || (len (upcoming row) <? n)), (0 <? n).
  - intros Hbad. destruct (Atoi countStr) as [n|]; [|done].
    destruct (Z.ltb_spec n 0); [done|].
    destruct (Z.ltb_spec (len (piged row)) n); [done|].
    destruct Hbad. exists n. split; [done|lia].
  - intros Hbad. destruct (Atoi countStr) as [n|]; [|done].
    destruct (Z.ltb_spec n 0); [done|].
    destruct (Z.ltb_spec (len (upcoming row)) n); [done|].
    destruct Hbad. exists n. split; [done|lia].
  - intros ->. unfold len.
    destruct (Z.ltb_spec (Z.of_nat (length (piged row))) 0); [lia|].
    by destruct (Z.ltb_spec (Z.of_nat (length (upcoming row))) 0); [lia|].
  - intros n -> [Hpos Hle].
    destruct (Z.ltb_spec n 0); [lia|].
    destruct (Z.ltb_spec (len (piged row)) n); [lia|].
    destruct (Z.ltb_spec 0 n); [|lia]. simpl.
    eexists (take _ (piged row)), _. split; [reflexivity|].
    split; [by rewrite take_drop|].
    unfold len in *. rewrite length_drop. lia.
  - intros n -> [Hpos Hle].
    destruct (Z.ltb_spec n 0); [lia|].
    destruct (Z.ltb_spec (len (upcoming row)) n); [lia|].
    destruct (Z.ltb_spec 0 n); [|lia]. simpl.
    eexists _, (drop _ (upcoming row)). split; [reflexivity|].
    split; [by rewrite take_drop|].
    unfold len in *. rewrite length_take. lia.
Qed.

Lemma show_cards_count_witness :
  (showUpcomingCards "d" "2" threeCardStore).1 = threeCardStore
  ∧ ∃ next later,
      (showUpcomingCards "d" "2" threeCardStore).2 = HttpJSON next
      ∧ [codeOnly "a"; codeOnly "b"; codeOnly "c"] = next ++ later
      ∧ len next = 2.
Proof.
  pose proof (show_cards_count "d" "2" threeCardStore
                (mkRow [] [] [codeOnly "a"; codeOnly "b"; codeOnly "c"])
                eq_refl)
    as ((_ & H1) & _ & _ & _ & _ & H2).
  split; [exact H1|].
  apply (H2 2 eq_refl). unfold len. simpl. lia.
Defined.

(** ** Deck creation *)

Lemma generateCards_nonpositive p jokers : p ≤ 0 → generateCards p jokers = [].
Proof.
  intros Hp. unfold generateCards.
  by replace (Z.to_nat p) with 0%nat by lia.
Qed.

(** C9. With a fresh identifier, deck creation answers with an error
    exactly when the pack count is strictly greater than 10.  A pack count
    of 0 or less succeeds and stores a deck with no cards, replying with
    zero cards and remaining 0.  A first path segment that [strconv.Atoi]
    does not accept is ignored and the deck is created with 1 pack. *)
Theorem createDeck_pack_count
    (params deckID seg : string) (db : Store) :
  db !! deckID = None →
  Split params "/" !! 0%nat = Some seg →
  let jokers :=
    match Split params "/" !! 1%nat with
    | Some p1 => String.eqb p1 "true"
    | None => false
    end in
  ((∃ msg status, (createDeck params deckID db).2 = HttpError msg status)
   ↔ ∃ p, Atoi seg = Some p ∧ 10 < p)
  ∧ (∀ p, Atoi seg = Some p → p ≤ 0 →
     createDeck params deckID db
     = (<[deckID := mkRow [] [] []]> db, HttpJSON (mkDeck deckID [] 0)))
  ∧ (Atoi seg = None →
     createDeck params deckID db
     = (<[deckID := mkRow (generateCards 1 jokers) [] (generateCards 1 jokers)]>
          db,
        HttpJSON (mkDeck deckID (generateCards 1 jokers)
                         (len (generateCards 1 jokers))))).
Proof.
  intros Hfresh Hseg jokers. unfold createDeck, db_insert.
  rewrite Hseg. fold jokers. split_and!.
  - destruct (Atoi seg) as [p|].
    + destruct (Z.ltb_spec 10 p).
      * split; [intros _; by exists p|intros _; by eexists _, _].
      * rewrite Hfresh. split; [by intros (? & ? & ?)|].
        intros (? & ? & ?). simplify_eq. lia.
    + destruct (Z.ltb_spec 10 1); [lia|]. rewrite Hfresh.
      split; [by intros (? & ? & ?)|by intros (? & ? & ?)].
  - intros p -> Hp. destruct (Z.ltb_spec 10 p); [lia|].
    by rewrite Hfresh, generateCards_nonpositive.
  - intros ->. destruct (Z.ltb_spec 10 1); [lia|]. by rewrite Hfresh.
Qed.

Lemma createDeck_pack_count_witness :
  createDeck "-3/true" "d" ∅
  = (<["d" := mkRow [] [] []]> ∅, HttpJSON (mkDeck "d" [] 0)).
Proof.
  pose proof (createDeck_pack_count "-3/true" "d" "-3" ∅ eq_refl eq_refl)
    as (_ & H & _).
  apply (H (-3)); [reflexivity|lia].
Defined.

(** ** The drawn pile *)

(** A successful draw removes the replied cards from the stored upcoming
    pile and leaves the stored drawn pile as it was. *)
Lemma drawCards_row now deckID count (db db' : Store) row r :
  db !! deckID = Some row →
  drawCards now (drawReq deckID count) db = Some (db', r) →
  Resp_Error r = None →
  ∃ rest,
    upcoming row = Cards (Resp_Deck r) ++ rest
    ∧ db' !! deckID = Some (mkRow (cards row) (piged row) rest).
Proof.
  intros Hrow Hdraw Hok. revert Hdraw. unfold drawCards.
  cbn [drawReq Params DeckID lookup list_lookup].
  destruct (Atoi count) as [n|]; [|intros; by simplify_eq].
  destruct (n <? 1); [intros; by simplify_eq|]. rewrite Hrow.
  destruct (len (upcoming row) =? 0); [intros; by simplify_eq|].
  intros. simplify_eq. simpl. eexists. split; [by rewrite take_drop|].
  by apply db_update_upcoming_lookup.
Qed.

(** C1, on the code.  Drawing two cards from the three-card deck replies
    with the first two cards and stores the third as the upcoming pile, but
    the stored drawn pile is still empty: the stamped cards are built and
    never written. *)
Theorem drawCards_drawn_pile_not_persisted :
  ∃ db' r,
    drawCards "2024-05-01T10:00:00Z" (drawReq "d" "2") threeCardStore
    = Some (db', r)
    ∧ Resp_Error r = None
    ∧ Cards (Resp_Deck r) = [codeOnly "a"; codeOnly "b"]
    ∧ db' !! "d" = Some (mkRow [] [] [codeOnly "c"]).
Proof. eexists _, _. split; [reflexivity|]. by split_and!. Qed.

(** C2, on the code.  After one draw of five cards from a fresh one-pack
    deck the row holds 52 generated cards, while the drawn and upcoming
    piles together hold 47. *)
Theorem draw_breaks_accounting :
  ∃ db' r row,
    drawCards "2024-05-01T10:00:00Z" (drawReq "d" "5") onePackStore
    = Some (db', r)
    ∧ db' !! "d" = Some row
    ∧ len (cards row) = 52
    ∧ len (piged row) = 0
    ∧ len (piged row) + len (upcoming row) = 47.
Proof. eexists _, _, _. split; [reflexivity|]. by split_and!. Qed.

(** ** Serialized draws *)

Lemma handleRequest_draw t deckID count (db : Store) :
  handleRequest t (drawReq deckID count) db
  = prod_map id Some <$> drawCards (tick_now t) (drawReq deckID count) db.
Proof. reflexivity. Qed.

Lemma handleRequests_cons t req reqs (db : Store) :
  handleRequests ((t, req) :: reqs) db
  = match handleRequest t req db with
    | None => None
    | Some (db', r) =>
        match handleRequests reqs db' with
        | None => None
        | Some (db'', rs) => Some (db'', r :: rs)
        end
    end.
Proof. reflexivity. Qed.

Lemma drawCards_one now deckID (db : Store) row c rest :
  db !! deckID = Some row → upcoming row = c :: rest →
  drawCards now (drawReq deckID "1") db
  = Some (db_update_upcoming deckID rest db,
          deckResponse (mkDeck deckID [c] (len rest))).
Proof.
  intros Hrow Hup.
  rewrite (drawCards_ok now deckID "1" db row 1 eq_refl ltac:(lia) Hrow)
    by (by rewrite Hup).
  rewrite Hup. unfold len. simpl length.
  by replace (Z.to_nat (Z.min 1 (Z.of_nat (S (length rest))))) with 1%nat
    by lia.
Qed.

(** As many one-card draws as the deck has cards, served one after another:
    every reply carries one card, the replies together are the upcoming
    pile in order, and the pile is empty afterwards.  The drawn pile of the
    row is what it was before. *)
Lemma serial_single_draws (ticks : list Tick) deckID (db : Store) row :
  db !! deckID = Some row →
  length ticks = length (upcoming row) →
  ∃ db' rs,
    handleRequests ((λ t, (t, drawReq deckID "1")) <$> ticks) db
    = Some (db', Some <$> rs)
    ∧ Forall (λ r, Resp_Error r = None ∧ length (Cards (Resp_Deck r)) = 1%nat)
             rs
    ∧ mjoin ((λ r, Cards (Resp_Deck r)) <$> rs) = upcoming row
    ∧ db' !! deckID = Some (mkRow (cards row) (piged row) []).
Proof.
  revert db row. induction ticks as [|t ticks IH]; intros db row Hrow Hlen.
  - exists db, []. destruct row as [cs ps us]. simpl in *.
    destruct us; [|done]. by split_and!.
  - destruct (upcoming row) as [|c rest] eqn:Hup; [done|].
    simpl in Hlen.
    destruct (IH (db_update_upcoming deckID rest db)
                 (mkRow (cards row) (piged row) rest))
      as (db' & rs & Hrun & Hall & Hcat & Hfin).
    { by apply db_update_upcoming_lookup. }
    { simpl. lia. }
    exists db', (deckResponse (mkDeck deckID [c] (len rest)) :: rs).
    split_and!.
    + rewrite fmap_cons, handleRequests_cons, handleRequest_draw.
      rewrite (drawCards_one _ _ _ row c rest Hrow Hup).
      cbn [fmap option_fmap option_map prod_map fst snd id].
      by rewrite Hrun.
    + by constructor.
    + simpl. f_equal. exact Hcat.
    + done.
Qed.

(** C8, on the code.  Three one-card draws on the three-card deck, in the
    order the serializer takes them: the three replies carry the three
    cards once each and the last reports 0 remaining, but the stored drawn
    pile has no entries instead of three. *)
Theorem serial_draws_drawn_pile_empty :
  ∃ db' r1 r2 r3,
    handleRequests threeDraws threeCardStore
    = Some (db', [Some r1; Some r2; Some r3])
    ∧ Cards (Resp_Deck r1) ++ Cards (Resp_Deck r2) ++ Cards (Resp_Deck r3)
      = [codeOnly "a"; codeOnly "b"; codeOnly "c"]
    ∧ Remaining (Resp_Deck r3) = 0
    ∧ db' !! "d" = Some (mkRow [] [] [])
    ∧ (showDrawnCards "d" "0" db').2 = HttpJSON [].
Proof. eexists _, _, _, _. split; [reflexivity|]. by split_and!. Qed.

(** ** Routing *)

Lemma String_eqb_true (a b : string) : String.eqb a b = true → a = b.
Proof. apply String.eqb_eq. Qed.

(** The three shapes an exchange under ["/deck/"] can take: an error that
    leaves the store alone, a listing that leaves the store alone, or a
    deck reply after a write to the upcoming pile of the addressed deck. *)
Lemma handleDeckRequests_outcome t method path cardsParam (db db' : Store) reply :
  handleDeckRequests t method path cardsParam db = Some (db', reply) →
  let parts := Split (TrimPrefix path "/deck/") "/" in
  (db' = db ∧ ∃ msg status, reply = HttpError msg status
                            ∧ msg ≠ "Invalid deck ID")
  ∨ (db' = db ∧ method = MethodGet ∧ parts !! 1%nat = Some "show"
     ∧ ((∃ l, reply = HttpJSON (DrawnBody l))
        ∨ (∃ l, reply = HttpJSON (CardsBody l))))
  ∨ (∃ deckID row u cs,
       parts !! 0%nat = Some deckID
       ∧ db !! deckID = Some row
       ∧ db' = db_update_upcoming deckID u db
       ∧ reply = HttpJSON (DeckBody (mkDeck deckID cs (len u)))
       ∧ ((method = MethodGet
           ∧ (parts !! 1%nat = Some "draw" ∨ parts !! 1%nat = Some "shuffle"))
          ∨ (method = MethodPost ∧ parts !! 1%nat = Some "add"))).
Proof.
  intros H parts. subst parts.
  pose proof (Split_length (TrimPrefix path "/deck/") "/") as Hlen.
  route.
  all: repeat match goal with
         | H : String.eqb _ _ = true |- _ => apply String_eqb_true in H; subst
         end.
  all: first
    [ by (left; split; [done|]; eexists _, _; split; [reflexivity|done])
    | by (right; left; split_and!; [done..|]; (left + right); eexists)
    | right; right; eexists _, _, _, _;
      split_and!; [done|eassumption|reflexivity|reflexivity|];
      first [ by (left; split; [done|]; (left + right))
            | by right ] ].
Qed.

(** X1. Every request under ["/deck/"] is answered: the serving goroutine
    never indexes [req.Params] or the shuffled slice out of range, and every
    request put on the channel has a type the serializer replies to. *)
Theorem handleDeckRequests_replies
    (t : Tick) (method path cardsParam : string) (db : Store) :
  ∃ db' reply,
    handleDeckRequests t method path cardsParam db = Some (db', reply).
Proof.
  route; try by eexists _, _.
  all: match goal with
       | H : Shuffle ?src ?l = None |- _ =>
           destruct (Shuffle_total src l) as (? & ? & _); congruence
       end.
Qed.

(** X2. A request under ["/deck/"] that is answered with an error leaves
    the whole store exactly as it was. *)
Theorem handleDeckRequests_error_keeps_store
    (t : Tick) (method path cardsParam : string) (db db' : Store)
    (msg : string) (status : Z) :
  handleDeckRequests t method path cardsParam db
  = Some (db', HttpError msg status) →
  db' = db.
Proof.
  intros H. apply handleDeckRequests_outcome in H.
  destruct H as [[? _]|[[? _]|(? & ? & ? & ? & _ & _ & _ & ? & _)]]; done.
Qed.

Lemma handleDeckRequests_error_keeps_store_witness :
  ∃ db',
    handleDeckRequests (mkTick "2024-05-01T10:00:00Z" id) "GET"
      "/deck/d/draw/0" "" threeCardStore
    = Some (db', HttpError "Invalid number of cards" 500)
    ∧ db' = threeCardStore.
Proof.
  eexists. split; [reflexivity|].
  exact (handleDeckRequests_error_keeps_store
           (mkTick "2024-05-01T10:00:00Z" id) "GET" "/deck/d/draw/0" ""
           threeCardStore _ _ _ eq_refl).
Defined.

(** X3. The reply "Invalid deck ID" is never sent: [strings.Split] never
    returns an empty slice, so the guard [len(parts) < 1] cannot fire, and
    no handler uses that message. *)
Theorem handleDeckRequests_never_invalid_deck_id
    (t : Tick) (method path cardsParam : string) (db db' : Store)
    (msg : string) (status : Z) :
  handleDeckRequests t method path cardsParam db
  = Some (db', HttpError msg status) →
  msg ≠ "Invalid deck ID".
Proof.
  intros H. apply handleDeckRequests_outcome in H.
  destruct H as [[_ (m & st & Heq & Hne)]
                |[(_ & _ & _ & [[? ?]|[? ?]])
                 |(? & ? & ? & ? & _ & _ & _ & ? & _)]];
    by simplify_eq.
Qed.

Lemma handleDeckRequests_never_invalid_deck_id_witness :
  handleDeckRequests (mkTick "2024-05-01T10:00:00Z" id) "GET" "/deck/" ""
    threeCardStore
  = Some (threeCardStore, HttpError "Method not allowed" 405)
  ∧ "Method not allowed" ≠ "Invalid deck ID".
Proof.
  split; [reflexivity|].
  exact (handleDeckRequests_never_invalid_deck_id
           (mkTick "2024-05-01T10:00:00Z" id) "GET" "/deck/" ""
           threeCardStore _ _ _ eq_refl).
Defined.

(** X4. A request under ["/deck/"] leaves every deck other than the one
    named by the first path segment untouched. *)
Theorem handleDeckRequests_other_decks
    (t : Tick) (method path cardsParam : string) (db db' : Store)
    (reply : HttpReply Body) (deckID other : string) :
  handleDeckRequests t method path cardsParam db = Some (db', reply) →
  Split (TrimPrefix path "/deck/") "/" !! 0%nat = Some deckID →
  other ≠ deckID →
  db' !! other = db !! other.
Proof.
  intros H Hid Hne. apply handleDeckRequests_outcome in H.
  destruct H as [[-> _]|[[-> _]|(id' & ? & ? & ? & Hid' & _ & -> & _)]];
    [done..|].
  rewrite Hid in Hid'. simplify_eq.
  by apply db_update_upcoming_lookup_ne.
Qed.

Lemma handleDeckRequests_other_decks_witness :
  ∃ db',
    handleDeckRequests (mkTick "2024-05-01T10:00:00Z" id) "GET"
      "/deck/d/draw/2" "" (<["e" := mkRow [] [] [codeOnly "x"]]> threeCardStore)
    = Some (db', HttpJSON (DeckBody (mkDeck "d" [codeOnly "a"; codeOnly "b"] 1)))
    ∧ db' !! "e" = Some (mkRow [] [] [codeOnly "x"]).
Proof.
  eexists. split; [reflexivity|].
  rewrite (handleDeckRequests_other_decks
             (mkTick "2024-05-01T10:00:00Z" id) "GET" "/deck/d/draw/2" ""
             (<["e" := mkRow [] [] [codeOnly "x"]]> threeCardStore)
             _ _ "d" "e" eq_refl eq_refl ltac:(discriminate)).
  reflexivity.
Defined.

Lemma db_update_upcoming_cards id id' u (db : Store) :
  cards <$> db_update_upcoming id u db !! id' = cards <$> db !! id'.
Proof.
  destruct (decide (id = id')) as [->|Hne].
  - unfold db_update_upcoming. rewrite lookup_alter_eq.
    by destruct (db !! id').
  - by rewrite db_update_upcoming_lookup_ne.
Qed.

(** X5. No request under ["/deck/"] creates or deletes a deck, and none
    changes the full card list or the stored drawn pile of any deck: only
    upcoming piles are ever rewritten. *)
Theorem handleDeckRequests_keeps_cards_and_drawn
    (t : Tick) (method path cardsParam : string) (db db' : Store)
    (reply : HttpReply Body) (deckID : string) :
  handleDeckRequests t method path cardsParam db = Some (db', reply) →
  (cards <$> db' !! deckID) = (cards <$> db !! deckID)
  ∧ (piged <$> db' !! deckID) = (piged <$> db !! deckID)
  ∧ (is_Some (db' !! deckID) ↔ is_Some (db !! deckID)).
Proof.
  intros H. apply handleDeckRequests_outcome in H.
  destruct H as [[-> _]|[[-> _]|(id' & ? & u & ? & _ & _ & -> & _)]];
    [done..|].
  pose proof (db_update_upcoming_cards id' deckID u db) as Hc.
  split_and!; [done|apply db_update_upcoming_piged|].
  rewrite <-!fmap_is_Some with (f := cards). by rewrite Hc.
Qed.

Lemma handleDeckRequests_keeps_cards_and_drawn_witness :
  ∃ db',
    handleDeckRequests (mkTick "2024-05-01T10:00:00Z" id) "GET"
      "/deck/d/draw/5" "" onePackStore
    = Some (db', HttpJSON (DeckBody (mkDeck "d" (take 5 (generateCards 1 false))
                                            47)))
    ∧ (cards <$> db' !! "d") = Some (generateCards 1 false)
    ∧ (piged <$> db' !! "d") = Some [].
Proof.
  eexists. split; [reflexivity|].
  destruct (handleDeckRequests_keeps_cards_and_drawn
              (mkTick "2024-05-01T10:00:00Z" id) "GET" "/deck/d/draw/5" ""
              onePackStore _ _ "d" eq_refl) as (H1 & H2 & _).
  split; [by rewrite H1|by rewrite H2].
Defined.

(** X6. Only three requests can change the store: GET with the action
    "draw" or "shuffle", and POST with the action "add".  Every other
    request under ["/deck/"], the two listings included, leaves the store
    as it was. *)
Theorem handleDeckRequests_writers
    (t : Tick) (method path cardsParam : string) (db db' : Store)
    (reply : HttpReply Body) :
  handleDeckRequests t method path cardsParam db = Some (db', reply) →
  db' ≠ db →
  let action := Split (TrimPrefix path "/deck/") "/" !! 1%nat in
  (method = "GET" ∧ (action = Some "draw" ∨ action = Some "shuffle"))
  ∨ (method = "POST" ∧ action = Some "add").
Proof.
  intros H Hne. apply handleDeckRequests_outcome in H.
  by destruct H as [[? _]|[[? _]|(? & ? & ? & ? & _ & _ & _ & _ & ?)]].
Qed.

Lemma handleDeckRequests_writers_witness :
  ∃ db',
    handleDeckRequests (mkTick "2024-05-01T10:00:00Z" id) "POST"
      "/deck/d/add" "x" threeCardStore
    = Some (db',
            HttpJSON (DeckBody
                        (mkDeck "d" [codeOnly "a"; codeOnly "b"; codeOnly "c";
                                     codeOnly "x"] 4)))
    ∧ (("POST" = "GET"
        ∧ (Some "add" = Some "draw" ∨ Some "add" = Some "shuffle"))
       ∨ ("POST" = "POST" ∧ Some "add" = Some "add")).
Proof.
  eexists. split; [reflexivity|].
  apply (handleDeckRequests_writers
           (mkTick "2024-05-01T10:00:00Z" id) "POST" "/deck/d/add" "x"
           threeCardStore _ _ eq_refl).
  intros Heq. apply (f_equal (λ db : Store, upcoming <$> db !! "d")) in Heq.
  discriminate Heq.
Defined.

(** X7. Whenever a request under ["/deck/"] is answered with a deck, the
    deck named in the reply is stored and the reported remaining count is
    the length of its stored upcoming pile. *)
Theorem handleDeckRequests_remaining
    (t : Tick) (method path cardsParam : string) (db db' : Store) (d : Deck) :
  handleDeckRequests t method path cardsParam db
  = Some (db', HttpJSON (DeckBody d)) →
  ∃ row, db' !! ID d = Some row ∧ Remaining d = len (upcoming row).
Proof.
  intros H. apply handleDeckRequests_outcome in H.
  destruct H as [[_ (? & ? & ? & _)]
                |[(_ & _ & _ & [[? ?]|[? ?]])
                 |(id' & row & u & cs & _ & Hrow & -> & ? & _)]];
    simplify_eq.
  eexists. split; [by apply db_update_upcoming_lookup|done].
Qed.

Lemma handleDeckRequests_remaining_witness :
  ∃ row,
    handleDeckRequests (mkTick "2024-05-01T10:00:00Z" id) "POST"
      "/deck/d/add" "x,y" threeCardStore
    = Some (db_update_upcoming "d"
              [codeOnly "a"; codeOnly "b"; codeOnly "c"; codeOnly "x";
               codeOnly "y"] threeCardStore,
            HttpJSON (DeckBody
                        (mkDeck "d" [codeOnly "a"; codeOnly "b"; codeOnly "c";
                                     codeOnly "x"; codeOnly "y"] 5)))
    ∧ db_update_upcoming "d"
        [codeOnly "a"; codeOnly "b"; codeOnly "c"; codeOnly "x"; codeOnly "y"]
        threeCardStore !! "d" = Some row
    ∧ 5 = len (upcoming row).
Proof.
  destruct (handleDeckRequests_remaining
              (mkTick "2024-05-01T10:00:00Z" id) "POST" "/deck/d/add" "x,y"
              threeCardStore
              (db_update_upcoming "d"
                 [codeOnly "a"; codeOnly "b"; codeOnly "c"; codeOnly "x";
                  codeOnly "y"] threeCardStore)
              _ eq_refl)
    as (row & Hrow & Hrem).
  exists row. split; [reflexivity|]. split; [exact Hrow|exact Hrem].
Defined.

(** X8. An unknown deck is reported with different statuses: add-cards and
    the two listings answer "Deck not found" with 404, while draw (with a
    valid count) and shuffle answer the same message with 500, because
    [handleResponse] sends every error of the serialized operations with
    500.  The store is unchanged in each case. *)
Theorem deck_not_found_status
    (t : Tick) (method path cardsParam : string) (db : Store)
    (deckID action : string) (rest : list string) :
  Split (TrimPrefix path "/deck/") "/" = deckID :: action :: rest →
  db !! deckID = None →
  (method = "POST" → action = "add" →
   handleDeckRequests t method path cardsParam db
   = Some (db, HttpError "Deck not found" 404))
  ∧ (method = "GET" → action = "shuffle" →
     handleDeckRequests t method path cardsParam db
     = Some (db, HttpError "Deck not found" 500))
  ∧ (method = "GET" → action = "draw" →
     ∀ count n, rest !! 0%nat = Some count → Atoi count = Some n → 1 ≤ n →
     handleDeckRequests t method path cardsParam db
     = Some (db, HttpError "Deck not found" 500))
  ∧ (method = "GET" → action = "show" →
     ∀ showType countStr,
       rest !! 0%nat = Some showType → rest !! 1%nat = Some countStr →
       showType = "0" ∨ showType = "1" →
       handleDeckRequests t method path cardsParam db
       = Some (db, HttpError "Deck not found" 404)).
Proof.
  intros Hparts Hnone. unfold handleDeckRequests. rewrite Hparts.
  split_and!.
  - intros -> ->. cbn. unfold addCards. by rewrite Hnone.
  - intros -> ->. cbn. unfold submit, handleRequest, shuffleDeck. cbn.
    by rewrite Hnone.
  - intros -> -> count n Hc Hn Hpos.
    destruct rest as [|? rest']; simplify_eq/=.
    unfold submit, handleRequest, drawCards. cbn. rewrite Hn.
    destruct (Z.ltb_spec n 1); [lia|]. by rewrite Hnone.
  - intros -> -> showType countStr Hs Hc Htype.
    destruct rest as [|? [|? rest']]; simplify_eq/=.
    destruct Htype as [-> | ->]; cbn.
    + unfold showDrawnCards. by rewrite Hnone.
    + unfold showUpcomingCards. by rewrite Hnone.
Qed.

Lemma deck_not_found_status_witness :
  handleDeckRequests (mkTick "2024-05-01T10:00:00Z" id) "POST" "/deck/zz/add"
    "as" threeCardStore
  = Some (threeCardStore, HttpError "Deck not found" 404)
  ∧ handleDeckRequests (mkTick "2024-05-01T10:00:00Z" id) "GET"
      "/deck/zz/shuffle" "" threeCardStore
    = Some (threeCardStore, HttpError "Deck not found" 500).
Proof.
  split.
  - by apply (deck_not_found_status (mkTick "2024-05-01T10:00:00Z" id) "POST"
                "/deck/zz/add" "as" threeCardStore "zz" "add" [] eq_refl
                eq_refl).
  - by apply (deck_not_found_status (mkTick "2024-05-01T10:00:00Z" id) "GET"
                "/deck/zz/shuffle" "" threeCardStore "zz" "shuffle" [] eq_refl
                eq_refl).
Defined.

(** ** Creation, again *)

(** X9. Creating a deck under an identifier that is already stored fails
    with status 500 and leaves the store, the existing deck included, as it
    was. *)
Theorem createDeck_duplicate_id
    (params deckID : string) (db : Store) (row : Row) :
  db !! deckID = Some row →
  (createDeck params deckID db).1 = db
  ∧ ∃ msg, (createDeck params deckID db).2 = HttpError msg 500.
Proof.
  intros Hrow. unfold createDeck, db_insert. rewrite Hrow.
  case_match; split; by eauto.
Qed.

Lemma createDeck_duplicate_id_witness :
  (createDeck "2/true" "d" threeCardStore).1 = threeCardStore
  ∧ ∃ msg, (createDeck "2/true" "d" threeCardStore).2 = HttpError msg 500.
Proof.
  exact (createDeck_duplicate_id "2/true" "d" threeCardStore
           (mkRow [] [] [codeOnly "a"; codeOnly "b"; codeOnly "c"]) eq_refl).
Defined.

(** X10. With a fresh identifier and a pack count between 1 and 10,
    creation adds exactly one row: full list and upcoming pile are both the
    generated cards, the drawn pile is empty, every other deck is
    untouched, and the reply lists the generated cards with remaining
    [52 * p], plus [2 * p] when the second segment is the literal "true". *)
Theorem createDeck_fresh
    (params deckID seg : string) (db : Store) (p : Z) :
  db !! deckID = None →
  Split params "/" !! 0%nat = Some seg →
  Atoi seg = Some p →
  1 ≤ p ≤ 10 →
  let jokers := bool_decide (Split params "/" !! 1%nat = Some "true") in
  let cs := generateCards p jokers in
  createDeck params deckID db
  = (<[deckID := mkRow cs [] cs]> db,
     HttpJSON (mkDeck deckID cs (52 * p + (if jokers then 2 * p else 0)))).
Proof.
  intros Hfresh Hseg Hp Hrange jokers cs. unfold createDeck, db_insert.
  rewrite Hseg, Hp. destruct (Z.ltb_spec 10 p); [lia|]. rewrite Hfresh.
  assert (match Split params "/" !! 1%nat with
          | Some p1 => String.eqb p1 "true"
          | None => false
          end = jokers) as ->.
  { subst jokers. destruct (Split params "/" !! 1%nat) as [p1|]; [|done].
    destruct (String.eqb_spec p1 "true") as [->|Hne].
    - by rewrite bool_decide_eq_true_2.
    - rewrite bool_decide_eq_false_2; [done|]. by intros [= ->]. }
  fold cs. do 3 f_equal.
  subst cs. unfold generateCards, len.
  rewrite generateLoop_specGenerate, app_nil_l.
  rewrite specGenerate_length, specPack_length. destruct jokers; lia.
Qed.

Lemma createDeck_fresh_witness :
  createDeck "2/true" "e" threeCardStore
  = (<["e" := mkRow (generateCards 2 true) [] (generateCards 2 true)]>
       threeCardStore,
     HttpJSON (mkDeck "e" (generateCards 2 true) 108)).
Proof.
  exact (createDeck_fresh "2/true" "e" "2" threeCardStore 2 eq_refl eq_refl
           eq_refl ltac:(lia)).
Defined.

(** ** Draws that follow one another *)

Lemma db_update_upcoming_twice id u1 u2 (db : Store) :
  db_update_upcoming id u2 (db_update_upcoming id u1 db)
  = db_update_upcoming id u2 db.
Proof.
  apply map_eq. intros i. unfold db_update_upcoming.
  destruct (decide (id = i)) as [->|Hne].
  - rewrite !lookup_alter_eq. by destruct (db !! i).
  - by rewrite !lookup_alter_ne.
Qed.

Lemma db_update_upcoming_same id (db : Store) row :
  db !! id = Some row → db_update_upcoming id (upcoming row) db = db.
Proof.
  intros Hrow. apply map_eq. intros i. unfold db_update_upcoming.
  destruct (decide (id = i)) as [->|Hne].
  - rewrite lookup_alter_eq, Hrow. by destruct row.
  - by rewrite lookup_alter_ne.
Qed.

(** X11. A successful draw splits the stored upcoming pile in two: the
    reply carries the front part, whose length is the requested count or
    the whole pile if that is shorter, and the rest is stored as the new
    upcoming pile and counted as remaining; the other columns of the row
    stay as they were. *)
Theorem drawCards_splits_upcoming
    (now deckID count : string) (db : Store) (row : Row) (n : Z) :
  Atoi count = Some n → 1 ≤ n →
  db !! deckID = Some row → upcoming row ≠ [] →
  ∃ db' drawn rest,
    drawCards now (drawReq deckID count) db
    = Some (db', deckResponse (mkDeck deckID drawn (len rest)))
    ∧ upcoming row = drawn ++ rest
    ∧ len drawn = Z.min n (len (upcoming row))
    ∧ db' !! deckID = Some (mkRow (cards row) (piged row) rest).
Proof.
  intros Hn Hpos Hrow Hne.
  rewrite (drawCards_ok now deckID count db row n Hn Hpos Hrow Hne).
  eexists _, _, _. split; [reflexivity|]. split_and!.
  - by rewrite take_drop.
  - unfold len. rewrite length_take. lia.
  - by apply db_update_upcoming_lookup.
Qed.

Lemma drawCards_splits_upcoming_witness :
  ∃ db' drawn rest,
    drawCards "2024-05-01T10:00:00Z" (drawReq "d" "2") threeCardStore
    = Some (db', deckResponse (mkDeck "d" drawn (len rest)))
    ∧ [codeOnly "a"; codeOnly "b"; codeOnly "c"] = drawn ++ rest
    ∧ len drawn = 2.
Proof.
  destruct (drawCards_splits_upcoming "2024-05-01T10:00:00Z" "d" "2"
              threeCardStore
              (mkRow [] [] [codeOnly "a"; codeOnly "b"; codeOnly "c"]) 2
              eq_refl ltac:(lia) eq_refl ltac:(discriminate))
    as (db' & drawn & rest & H1 & H2 & H3 & _).
  exists db', drawn, rest. split; [exact H1|]. split; [exact H2|exact H3].
Defined.

(** X12. Two draws in a row give what one draw of the summed count gives:
    when the first count is smaller than the pile, drawing [m] and then
    [n] cards returns, in order, the cards a single draw of [m + n] would
    return, and ends in the same store with the same remaining count. *)
Theorem drawCards_twice
    (now1 now2 now3 deckID c1 c2 c3 : string) (db : Store) (row : Row)
    (m n : Z) :
  Atoi c1 = Some m → Atoi c2 = Some n → Atoi c3 = Some (m + n) →
  1 ≤ m → 1 ≤ n →
  db !! deckID = Some row →
  m < len (upcoming row) →
  ∃ db1 r1 db2 r2 r3,
    drawCards now1 (drawReq deckID c1) db = Some (db1, r1)
    ∧ drawCards now2 (drawReq deckID c2) db1 = Some (db2, r2)
    ∧ drawCards now3 (drawReq deckID c3) db = Some (db2, r3)
    ∧ Resp_Error r3 = None
    ∧ Cards (Resp_Deck r3) = Cards (Resp_Deck r1) ++ Cards (Resp_Deck r2)
    ∧ Remaining (Resp_Deck r3) = Remaining (Resp_Deck r2).
Proof.
  intros H1 H2 H3 Hm Hn Hrow Hlt.
  set (u := upcoming row) in *.
  assert (u ≠ []) as Hne.
  { intros Hnil. rewrite Hnil in Hlt. unfold len in Hlt. simpl in Hlt. lia. }
  set (k1 := Z.to_nat (Z.min m (len u))).
  set (row1 := mkRow (cards row) (piged row) (drop k1 u)).
  assert (len (drop k1 u) = len u - m) as Hlen1.
  { unfold len in *. rewrite length_drop. lia. }
  assert (upcoming row1 ≠ []) as Hne1.
  { simpl. intros Hnil. rewrite Hnil in Hlen1. unfold len in *.
    simpl in Hlen1. lia. }
  set (k2 := Z.to_nat (Z.min n (len (upcoming row1)))).
  assert (Z.to_nat (Z.min (m + n) (len u)) = (k1 + k2)%nat) as Hk3.
  { subst k1 k2. simpl. rewrite Hlen1. lia. }
  rewrite (drawCards_ok now1 deckID c1 db row m H1 Hm Hrow Hne).
  rewrite (drawCards_ok now3 deckID c3 db row (m + n) H3 ltac:(lia) Hrow Hne).
  fold u k1. rewrite Hk3.
  eexists _, _, _, _, _. split; [reflexivity|].
  rewrite (drawCards_ok now2 deckID c2 _ row1 n H2 Hn
             (db_update_upcoming_lookup deckID _ db row Hrow) Hne1).
  fold k2. split; [reflexivity|].
  split.
  - rewrite db_update_upcoming_twice. simpl. by rewrite drop_drop.
  - simpl. split; [done|].
    split; [by rewrite take_take_drop|by rewrite drop_drop].
Qed.

Lemma drawCards_twice_witness :
  ∃ db1 r1 db2 r2 r3,
    drawCards "2024-05-01T10:00:00Z" (drawReq "d" "2") onePackStore
    = Some (db1, r1)
    ∧ drawCards "2024-05-01T10:00:05Z" (drawReq "d" "3") db1 = Some (db2, r2)
    ∧ drawCards "2024-05-01T10:00:09Z" (drawReq "d" "5") onePackStore
      = Some (db2, r3)
    ∧ Cards (Resp_Deck r3) = Cards (Resp_Deck r1) ++ Cards (Resp_Deck r2).
Proof.
  destruct (drawCards_twice "2024-05-01T10:00:00Z" "2024-05-01T10:00:05Z"
              "2024-05-01T10:00:09Z" "d" "2" "3" "5" onePackStore
              (mkRow (generateCards 1 false) [] (generateCards 1 false)) 2 3
              eq_refl eq_refl eq_refl ltac:(lia) ltac:(lia) eq_refl
              ltac:(reflexivity))
    as (db1 & r1 & db2 & r2 & r3 & Ha & Hb & Hc & _ & Hd & _).
  exists db1, r1, db2, r2, r3. by split_and!.
Defined.

(** X13. Once a draw has taken the whole pile, every further draw with a
    valid count fails with "Deck empty" and changes nothing, until cards
    are added. *)
Theorem drawCards_after_exhaustion
    (now1 now2 deckID c1 c2 : string) (db : Store) (row : Row) (n m : Z) :
  Atoi c1 = Some n → Atoi c2 = Some m → 1 ≤ m →
  db !! deckID = Some row → upcoming row ≠ [] →
  len (upcoming row) ≤ n →
  ∃ db1 r1,
    drawCards now1 (drawReq deckID c1) db = Some (db1, r1)
    ∧ Cards (Resp_Deck r1) = upcoming row
    ∧ drawCards now2 (drawReq deckID c2) db1
      = Some (db1, errorResponse "Deck empty").
Proof.
  intros H1 H2 Hm Hrow Hne Hle.
  assert (1 ≤ n) as Hn.
  { destruct (upcoming row); [done|]. unfold len in Hle. simpl in Hle. lia. }
  rewrite (drawCards_ok now1 deckID c1 db row n H1 Hn Hrow Hne).
  replace (Z.to_nat (Z.min n (len (upcoming row))))
    with (length (upcoming row)) by (unfold len in *; lia).
  rewrite drop_all, firstn_all.
  eexists _, _. split; [reflexivity|]. split; [done|].
  unfold drawCards. cbn [drawReq Params DeckID lookup list_lookup].
  rewrite H2. destruct (Z.ltb_spec m 1); [lia|].
  by rewrite (db_update_upcoming_lookup deckID [] db row Hrow).
Qed.

Lemma drawCards_after_exhaustion_witness :
  ∃ db1 r1,
    drawCards "2024-05-01T10:00:00Z" (drawReq "d" "3") threeCardStore
    = Some (db1, r1)
    ∧ drawCards "2024-05-01T10:00:05Z" (drawReq "d" "1") db1
      = Some (db1, errorResponse "Deck empty").
Proof.
  destruct (drawCards_after_exhaustion "2024-05-01T10:00:00Z"
              "2024-05-01T10:00:05Z" "d" "3" "1" threeCardStore
              (mkRow [] [] [codeOnly "a"; codeOnly "b"; codeOnly "c"]) 3 1
              eq_refl eq_refl ltac:(lia) eq_refl ltac:(discriminate)
              ltac:(reflexivity))
    as (db1 & r1 & Ha & _ & Hb).
  exists db1, r1. by split.
Defined.

(** ** The JSON codec on request text *)

Lemma length_parseCards cardsStr :
  length (parseCards cardsStr) = S (Count cardsStr ",").
Proof. by rewrite parseCards_fmap, length_fmap, Split_length. Qed.

Lemma jsonBytes_ascii s : isASCII s = true → jsonBytes 0 s = s.
Proof.
  induction s as [|c s IH]; [done|]. cbn [isASCII jsonBytes runeSize].
  intros [Hc Hs]%andb_true_iff. rewrite Hc. cbn. by rewrite IH.
Qed.

Lemma Split_ascii s sep :
  isASCII s = true → Forall (λ seg, isASCII seg = true) (Split s sep).
Proof.
  induction s as [|c s IH]; simpl; [by repeat constructor|].
  intros [Hc Hs]%andb_true_iff. specialize (IH Hs).
  destruct (Ascii.eqb c sep); [by constructor|].
  destruct (Split s sep) as [|seg segs].
  - constructor; [|constructor]. simpl. by rewrite Hc.
  - inversion IH; subst. constructor; [|done]. simpl. by rewrite Hc.
Qed.

Lemma jsonCard_parseCards cardsStr :
  jsonCard <$> parseCards cardsStr
  = codeOnly <$> (jsonString <$> Split cardsStr ",").
Proof.
  rewrite parseCards_fmap, <-!list_fmap_compose. by apply list_fmap_ext.
Qed.

Lemma jsonCard_parseCards_ascii cardsStr :
  isASCII cardsStr = true →
  jsonCard <$> parseCards cardsStr = parseCards cardsStr.
Proof.
  intros Hs. rewrite jsonCard_parseCards, parseCards_fmap. f_equal.
  pose proof (Split_ascii cardsStr "," Hs) as Hall.
  induction Hall as [|seg segs Hseg _ IH]; [done|].
  cbn. f_equal; [|exact IH]. by apply jsonBytes_ascii.
Qed.

(** The byte FF, which starts no UTF-8 sequence, is stored and sent as
    U+FFFD; a well-formed sequence (here the euro sign) is kept. *)
Example addCards_invalid_byte :
  jsonString (String (ascii_of_nat 255) "") = replacement ""
  ∧ jsonString (String (ascii_of_nat 226)
                  (String (ascii_of_nat 130) (String (ascii_of_nat 172) "")))
    = String (ascii_of_nat 226)
        (String (ascii_of_nat 130) (String (ascii_of_nat 172) ""))
  ∧ (upcoming <$> (addCards "d" (String (ascii_of_nat 255) "")
                     (createDeck "0" "d" ∅).1).1 !! "d")
    = Some [codeOnly (replacement "")].
Proof. by split_and!. Qed.

(** ** Adding, then drawing *)

(** X14. Added cards queue behind the cards already upcoming: a draw of at
    most the old pile's length made right after an add returns exactly the
    cards it would have returned before the add, and leaves stored the old
    remainder followed by one card per segment of the [cards] parameter,
    each code as the JSON codec writes it (the segment itself when the
    parameter is ASCII). *)
Theorem addCards_then_draw
    (now deckID cardsStr count : string) (db : Store) (row : Row) (n : Z) :
  Atoi count = Some n →
  1 ≤ n ≤ len (upcoming row) →
  db !! deckID = Some row →
  ∃ db' r added,
    drawCards now (drawReq deckID count) (addCards deckID cardsStr db).1
    = Some (db', r)
    ∧ Resp_Error r = None
    ∧ Cards (Resp_Deck r) = take (Z.to_nat n) (upcoming row)
    ∧ Remaining (Resp_Deck r)
      = len (upcoming row) - n + 1 + Z.of_nat (Count cardsStr ",")
    ∧ db' !! deckID
      = Some (mkRow (cards row) (piged row)
                    (drop (Z.to_nat n) (upcoming row) ++ added))
    ∧ added = codeOnly <$> (jsonString <$> Split cardsStr ",")
    ∧ (isASCII cardsStr = true → added = parseCards cardsStr).
Proof.
  intros Hn [Hpos Hle] Hrow.
  assert (Z.to_nat n ≤ length (upcoming row))%nat as Hk
    by (unfold len in Hle; lia).
  set (new := jsonCard <$> parseCards cardsStr).
  set (added := upcoming row ++ new).
  set (row1 := mkRow (cards row) (piged row) added).
  assert ((addCards deckID cardsStr db).1
          = db_update_upcoming deckID added db) as ->.
  { unfold addCards. by rewrite Hrow. }
  assert (upcoming row1 ≠ []) as Hne.
  { simpl. subst added. destruct (upcoming row); [|done].
    unfold len in Hle. simpl in Hle. lia. }
  rewrite (drawCards_ok now deckID count _ row1 n Hn Hpos
             (db_update_upcoming_lookup deckID _ db row Hrow) Hne).
  assert (Z.to_nat (Z.min n (len (upcoming row1))) = Z.to_nat n) as ->.
  { simpl. subst added. unfold len in *. rewrite length_app. lia. }
  exists (db_update_upcoming deckID
            (drop (Z.to_nat n) (upcoming row1))
            (db_update_upcoming deckID added db)),
    (deckResponse (mkDeck deckID (take (Z.to_nat n) (upcoming row1))
                          (len (drop (Z.to_nat n) (upcoming row1))))),
    new.
  split; [reflexivity|]. simpl. subst added.
  rewrite take_app_le, drop_app_le by done.
  split_and!; [done|done| | | |].
  - subst new. unfold len in *.
    rewrite length_app, length_drop, length_fmap, length_parseCards. lia.
  - rewrite db_update_upcoming_twice.
    by apply db_update_upcoming_lookup.
  - apply jsonCard_parseCards.
  - apply jsonCard_parseCards_ascii.
Qed.

Lemma addCards_then_draw_witness :
  ∃ db' r,
    drawCards "2024-05-01T10:00:00Z" (drawReq "d" "2")
      (addCards "d" "x,y" threeCardStore).1
    = Some (db', r)
    ∧ Cards (Resp_Deck r) = [codeOnly "a"; codeOnly "b"]
    ∧ Remaining (Resp_Deck r) = 3
    ∧ db' !! "d"
      = Some (mkRow [] [] [codeOnly "c"; codeOnly "x"; codeOnly "y"]).
Proof.
  destruct (addCards_then_draw "2024-05-01T10:00:00Z" "d" "x,y" "2"
              threeCardStore
              (mkRow [] [] [codeOnly "a"; codeOnly "b"; codeOnly "c"]) 2
              eq_refl ltac:(by split) eq_refl)
    as (db' & r & added & H1 & _ & H2 & H3 & H4 & _ & H5).
  exists db', r. split; [exact H1|]. split; [exact H2|].
  split; [exact H3|]. rewrite H4. by rewrite (H5 eq_refl).
Defined.

(** ** One-card draws, serialized *)

(** X15. As many one-card draws as the deck has upcoming cards, taken by
    the serializer in any arrival order: every caller gets one card and no
    error, the replies in serving order are the upcoming pile, so every
    card is handed out once, and the pile is empty afterwards. *)
Theorem serialized_single_draws
    (ticks : list Tick) (deckID : string) (db : Store) (row : Row) :
  db !! deckID = Some row →
  length ticks = length (upcoming row) →
  ∃ db' rs,
    handleRequests ((λ t, (t, drawReq deckID "1")) <$> ticks) db
    = Some (db', Some <$> rs)
    ∧ length rs = length ticks
    ∧ Forall (λ r, Resp_Error r = None ∧ length (Cards (Resp_Deck r)) = 1%nat)
             rs
    ∧ mjoin ((λ r, Cards (Resp_Deck r)) <$> rs) = upcoming row
    ∧ (upcoming <$> db' !! deckID) = Some [].
Proof.
  intros Hrow Hlen.
  destruct (serial_single_draws ticks deckID db row Hrow Hlen)
    as (db' & rs & Hrun & Hall & Hcat & Hfin).
  exists db', rs. split_and!; [done| |done|done|by rewrite Hfin].
  rewrite Hlen, <-Hcat. clear -Hall.
  induction Hall as [|r rs [_ H1] _ IH]; [done|].
  simpl. rewrite length_app, H1. simpl. f_equal. exact IH.
Qed.

Lemma serialized_single_draws_witness :
  ∃ db' rs,
    handleRequests threeDraws threeCardStore = Some (db', Some <$> rs)
    ∧ mjoin ((λ r, Cards (Resp_Deck r)) <$> rs)
      = [codeOnly "a"; codeOnly "b"; codeOnly "c"].
Proof.
  destruct (serialized_single_draws
              [mkTick "2024-05-01T10:00:00Z" id;
               mkTick "2024-05-01T10:00:00Z" id;
               mkTick "2024-05-01T10:00:01Z" id]
              "d" threeCardStore
              (mkRow [] [] [codeOnly "a"; codeOnly "b"; codeOnly "c"])
              eq_refl eq_refl)
    as (db' & rs & H1 & _ & _ & H2 & _).
  exists db', rs. split; [exact H1|exact H2].
Defined.

(** ** Small piles *)

(** X16. Shuffling a deck with at most one upcoming card changes nothing:
    the loop of [rand.Shuffle] does not run, the store is exactly what it
    was, and the reply lists the pile as it is. *)
Theorem shuffleDeck_small_pile
    (src : nat → nat) (deckID : string) (db : Store) (row : Row) :
  db !! deckID = Some row →
  (length (upcoming row) ≤ 1)%nat →
  shuffleDeck src (shuffleReq deckID) db
  = Some (db, deckResponse
                (mkDeck deckID (upcoming row) (len (upcoming row)))).
Proof.
  intros Hrow Hlen. unfold shuffleDeck. cbn [shuffleReq DeckID].
  rewrite Hrow. unfold Shuffle.
  replace (length (upcoming row) - 1)%nat with 0%nat by lia.
  cbn [shuffle_from]. by rewrite db_update_upcoming_same.
Qed.

Lemma shuffleDeck_small_pile_witness :
  shuffleDeck (λ i, 5 * i + 1)%nat (shuffleReq "d")
    (addCards "d" "as" (createDeck "0" "d" ∅).1).1
  = Some ((addCards "d" "as" (createDeck "0" "d" ∅).1).1,
          deckResponse (mkDeck "d" [codeOnly "as"] 1)).
Proof.
  exact (shuffleDeck_small_pile (λ i, 5 * i + 1)%nat "d"
           (addCards "d" "as" (createDeck "0" "d" ∅).1).1
           (mkRow [] [] [codeOnly "as"]) eq_refl ltac:(simpl; lia)).
Defined.

(** ** Addresses *)

Lemma Split_no_sep s sep : Count s sep = 0%nat → Split s sep = [s].
Proof.
  induction s as [|c s IH]; simpl; [done|].
  destruct (Ascii.eqb c sep); [done|]. intros H. by rewrite IH.
Qed.

Lemma Split_first_segment s rest sep :
  Count s sep = 0%nat →
  Split (s +:+ String sep rest) sep = s :: Split rest sep.
Proof.
  induction s as [|c s IH]; simpl.
  - by rewrite Ascii.eqb_refl.
  - destruct (Ascii.eqb c sep); [done|]. intros H. by rewrite IH.
Qed.

(** X17. The documented addresses reach the handlers with the right
    arguments: for a deck identifier and a count without a slash,
    [/deck/{id}/draw/{count}] and [/deck/{id}/shuffle] are served by the
    serializer as the draw and shuffle requests for that deck, POST
    [/deck/{id}/add] adds the [cards] parameter to it, and
    [/deck/{id}/show/0/{count}] and [/deck/{id}/show/1/{count}] list its
    drawn and its upcoming pile. *)
Theorem handleDeckRequests_addresses
    (t : Tick) (deckID count cardsParam : string) (db : Store) :
  Count deckID "/" = 0%nat →
  Count count "/" = 0%nat →
  handleDeckRequests t "GET" ("/deck/" +:+ deckID +:+ "/draw/" +:+ count)
    cardsParam db
  = submit t (drawReq deckID count) db
  ∧ handleDeckRequests t "GET" ("/deck/" +:+ deckID +:+ "/shuffle")
      cardsParam db
    = submit t (shuffleReq deckID) db
  ∧ handleDeckRequests t "POST" ("/deck/" +:+ deckID +:+ "/add") cardsParam db
    = Some (prod_map id (replyMap DeckBody) (addCards deckID cardsParam db))
  ∧ handleDeckRequests t "GET" ("/deck/" +:+ deckID +:+ "/show/0/" +:+ count)
      cardsParam db
    = Some (prod_map id (replyMap DrawnBody)
                     (showDrawnCards deckID count db))
  ∧ handleDeckRequests t "GET" ("/deck/" +:+ deckID +:+ "/show/1/" +:+ count)
      cardsParam db
    = Some (prod_map id (replyMap CardsBody)
                     (showUpcomingCards deckID count db)).
Proof.
  intros Hid Hcount. unfold handleDeckRequests.
  change (TrimPrefix ("/deck/" +:+ deckID +:+ "/draw/" +:+ count) "/deck/")
    with (deckID +:+ String "/" ("draw" +:+ String "/" count)).
  change (TrimPrefix ("/deck/" +:+ deckID +:+ "/shuffle") "/deck/")
    with (deckID +:+ String "/" "shuffle").
  change (TrimPrefix ("/deck/" +:+ deckID +:+ "/add") "/deck/")
    with (deckID +:+ String "/" "add").
  change (TrimPrefix ("/deck/" +:+ deckID +:+ "/show/0/" +:+ count) "/deck/")
    with (deckID +:+ String "/" ("show" +:+ String "/"
                                   ("0" +:+ String "/" count))).
  change (TrimPrefix ("/deck/" +:+ deckID +:+ "/show/1/" +:+ count) "/deck/")
    with (deckID +:+ String "/" ("show" +:+ String "/"
                                   ("1" +:+ String "/" count))).
  rewrite !Split_first_segment by done.
  rewrite (Split_no_sep count) by done.
  by split_and!.
Qed.

Lemma handleDeckRequests_addresses_witness :
  handleDeckRequests (mkTick "2024-05-01T10:00:00Z" id) "GET"
    "/deck/d/draw/2" "" threeCardStore
  = submit (mkTick "2024-05-01T10:00:00Z" id) (drawReq "d" "2") threeCardStore.
Proof.
  apply (handleDeckRequests_addresses (mkTick "2024-05-01T10:00:00Z" id)
           "d" "2" "" threeCardStore eq_refl eq_refl).
Defined.

(** ** What every reachable store looks like *)

Lemma createDeck_rows (params deckID : string) (db : Store) id row :
  (createDeck params deckID db).1 !! id = Some row →
  db !! id = Some row
  ∨ (piged row = [] ∧ ∃ p j, p ≤ 10 ∧ cards row = generateCards p j).
Proof.
  unfold createDeck, db_insert.
  set (p := match Split params "/" !! 0%nat with
            | Some p0 => match Atoi p0 with Some p => p | None => 1 end
            | None => 1
            end).
  destruct (Z.ltb_spec 10 p); [by left|].
  destruct (db !! deckID) eqn:Hd; [by left|]. simpl.
  destruct (decide (deckID = id)) as [->|Hne].
  - rewrite lookup_insert_eq. intros [= <-]. right. simpl.
    split; [done|]. by eexists p, _.
  - rewrite lookup_insert_ne by done. by left.
Qed.

Lemma reachable_rows (db : Store) id row :
  reachable db → db !! id = Some row →
  piged row = [] ∧ ∃ p j, p ≤ 10 ∧ cards row = generateCards p j.
Proof.
  intros Hreach. revert id row.
  induction Hreach as [|db db' _ IH Hstep]; intros id row Hrow; [done|].
  destruct Hstep as [params deckID db|t method path q db db' reply Hrun].
  - apply createDeck_rows in Hrow as [Hrow|?]; [by eapply IH|done].
  - apply handleDeckRequests_outcome in Hrun.
    destruct Hrun as [[-> _]|[[-> _]|(id' & ? & u & ? & _ & _ & -> & _)]];
      [by eapply IH..|].
    pose proof (db_update_upcoming_cards id' id u db) as Hc.
    pose proof (db_update_upcoming_piged id' id u db) as Hp.
    rewrite Hrow in Hc, Hp. simpl in Hc, Hp.
    destruct (db !! id) as [row0|] eqn:H0; [|done].
    simpl in Hc, Hp. simplify_eq. rewrite Hc, Hp. by eapply IH.
Qed.

(** X18. In every store the service can reach from the empty table, the
    full card list of each deck is a generated deck of at most 10 packs
    and its stored drawn pile is empty.  So show-drawn on a stored deck can
    only answer with the empty list, for a count that parses to 0, or with
    "Invalid count" (400). *)
Theorem reachable_drawn_pile_empty
    (db : Store) (deckID countStr : string) (row : Row) :
  reachable db →
  db !! deckID = Some row →
  piged row = []
  ∧ (∃ p j, p ≤ 10 ∧ cards row = generateCards p j)
  ∧ showDrawnCards deckID countStr db
    = (db, if decide (Atoi countStr = Some 0)
           then HttpJSON []
           else HttpError "Invalid count" StatusBadRequest).
Proof.
  intros Hreach Hrow.
  destruct (reachable_rows db deckID row Hreach Hrow) as [Hp Hc].
  split_and!; [done..|].
  unfold showDrawnCards. rewrite Hrow, Hp.
  destruct (Atoi countStr) as [n|]; [|by rewrite decide_False].
  unfold len. simpl. change (Z.of_nat 0) with 0.
  destruct (Z.ltb_spec n 0); simpl.
  { rewrite decide_False; [done|]. intros [= ->]. lia. }
  destruct (Z.ltb_spec 0 n); simpl.
  { rewrite decide_False; [done|]. intros [= ->]. lia. }
  assert (n = 0) as -> by lia. by rewrite decide_True.
Qed.

Lemma reachable_drawn_pile_empty_witness :
  ∃ db row,
    handleDeckRequests (mkTick "2024-05-01T10:00:00Z" id) "GET"
      "/deck/d/draw/5" "" onePackStore
    = Some (db, HttpJSON (DeckBody (mkDeck "d" (take 5 (generateCards 1 false))
                                           47)))
    ∧ db !! "d" = Some row
    ∧ piged row = []
    ∧ showDrawnCards "d" "5" db
      = (db, HttpError "Invalid count" StatusBadRequest).
Proof.
  eexists _, (mkRow (generateCards 1 false) [] (drop 5 (generateCards 1 false))).
  split; [reflexivity|]. split; [reflexivity|].
  eassert (reachable _) as Hreach.
  { eapply reachable_step;
      [eapply reachable_step; [exact reachable_empty|]|].
    - exact (exchange_create "1/false" "d" ∅).
    - eapply (exchange_deck (mkTick "2024-05-01T10:00:00Z" id) "GET"
                "/deck/d/draw/5" "").
      reflexivity. }
  destruct (reachable_drawn_pile_empty _ "d" "5" _ Hreach eq_refl)
    as (H1 & _ & H2).
  split; [exact H1|exact H2].
Defined.

(** ** No card is lost or handed out twice *)

Lemma handleRequest_conserves t req (db db1 : Store) r id row :
  handleRequest t req db = Some (db1, r) →
  db !! id = Some row →
  ∃ row1,
    db1 !! id = Some row1
    ∧ (if String.eqb (Type_ req) "draw" && String.eqb (DeckID req) id
       then from_option (λ r, Cards (Resp_Deck r)) [] r
       else [])
      ++ upcoming row1 ≡ₚ upcoming row.
Proof.
  intros Hrun Hrow. unfold handleRequest in Hrun.
  destruct (String.eqb (Type_ req) "draw") eqn:Hdraw.
  - unfold drawCards in Hrun. cbn [andb].
    destruct (String.eqb_spec (DeckID req) id) as [Hid|Hid];
      repeat (case_match; simplify_eq/=);
      try (by exists row);
      try (eexists; split;
           [by apply db_update_upcoming_lookup
           |simpl; by rewrite take_drop]).
    all: exists row; by rewrite db_update_upcoming_lookup_ne.
  - cbn [andb]. destruct (String.eqb (Type_ req) "shuffle").
    + unfold shuffleDeck in Hrun.
      destruct (db !! DeckID req) as [row'|] eqn:Hrow';
        [|simplify_eq/=; by exists row].
      destruct (Shuffle_total (tick_src t) (upcoming row'))
        as (shuffled & Hs & Hperm).
      rewrite Hs in Hrun. simplify_eq/=.
      destruct (decide (DeckID req = id)) as [Hid|Hid].
      * rewrite Hid in *. simplify_eq.
        eexists. split; [by apply db_update_upcoming_lookup|done].
      * exists row. by rewrite db_update_upcoming_lookup_ne.
    + simplify_eq/=. by exists row.
Qed.

(** X19. Whatever draw and shuffle requests the serializer takes, for
    whichever decks and in whatever order, they only move cards: for every
    deck, the cards handed out by its draws followed by its stored upcoming
    pile are a permutation of the upcoming pile it started with. *)
Theorem handleRequests_conserves
    (reqs : list (Tick * Request)) (db db' : Store)
    (rs : list (option Response)) (deckID : string) (row : Row) :
  handleRequests reqs db = Some (db', rs) →
  db !! deckID = Some row →
  ∃ row',
    db' !! deckID = Some row'
    ∧ dealt deckID reqs rs ++ upcoming row' ≡ₚ upcoming row.
Proof.
  revert db rs row.
  induction reqs as [|[t req] reqs IH]; intros db rs row Hrun Hrow.
  - simpl in Hrun. simplify_eq. by exists row.
  - rewrite handleRequests_cons in Hrun.
    destruct (handleRequest t req db) as [[db1 r]|] eqn:Hstep; [|done].
    destruct (handleRequests reqs db1) as [[db2 rs']|] eqn:Hrest; [|done].
    simplify_eq.
    destruct (handleRequest_conserves t req db db1 r deckID row Hstep Hrow)
      as (row1 & Hrow1 & Hperm1).
    destruct (IH db1 rs' row1 Hrest Hrow1) as (row' & Hrow' & Hperm').
    exists row'. split; [done|].
    cbn [dealt]. rewrite <-Hperm1, <-Hperm', <-!app_assoc. done.
Qed.

Lemma handleRequests_conserves_witness :
  ∃ db' rs row',
    handleRequests
      [(mkTick "2024-05-01T10:00:00Z" id, drawReq "d" "1");
       (mkTick "2024-05-01T10:00:01Z" (λ i, 3 * i)%nat, shuffleReq "d");
       (mkTick "2024-05-01T10:00:02Z" id, drawReq "d" "1")]
      threeCardStore
    = Some (db', rs)
    ∧ db' !! "d" = Some row'
    ∧ dealt "d"
        [(mkTick "2024-05-01T10:00:00Z" id, drawReq "d" "1");
         (mkTick "2024-05-01T10:00:01Z" (λ i, 3 * i)%nat, shuffleReq "d");
         (mkTick "2024-05-01T10:00:02Z" id, drawReq "d" "1")] rs
      ++ upcoming row'
      ≡ₚ [codeOnly "a"; codeOnly "b"; codeOnly "c"].
Proof.
  eexists _, _.
  edestruct (handleRequests_conserves
               [(mkTick "2024-05-01T10:00:00Z" id, drawReq "d" "1");
                (mkTick "2024-05-01T10:00:01Z" (λ i, 3 * i)%nat,
                 shuffleReq "d");
                (mkTick "2024-05-01T10:00:02Z" id, drawReq "d" "1")]
               threeCardStore _ _ "d"
               (mkRow [] [] [codeOnly "a"; codeOnly "b"; codeOnly "c"])
               eq_refl eq_refl)
    as (row' & Hrow' & Hperm).
  exists row'. split; [reflexivity|]. split; [exact Hrow'|exact Hperm].
Defined.

(** ** The add-cards reply *)

(** X20. On an existing deck add-cards always succeeds, whatever the
    [cards] parameter: remaining grows by the number of commas plus one,
    and the reply lists the full card list, the old upcoming pile and then
    one card per segment, each code as the JSON encoder sends it (the
    segment itself when the parameter is ASCII), so it carries as many
    cards as the full list and the remaining count together. *)
Theorem addCards_reply
    (deckID cardsStr : string) (db : Store) (row : Row) :
  db !! deckID = Some row →
  ∃ db' d added,
    addCards deckID cardsStr db = (db', HttpJSON d)
    ∧ ID d = deckID
    ∧ Cards d = cards row ++ upcoming row ++ added
    ∧ added = codeOnly <$> (jsonString <$> Split cardsStr ",")
    ∧ (isASCII cardsStr = true → added = parseCards cardsStr)
    ∧ Remaining d = len (upcoming row) + 1 + Z.of_nat (Count cardsStr ",")
    ∧ len (Cards d) = len (cards row) + Remaining d.
Proof.
  intros Hrow. unfold addCards. rewrite Hrow.
  eexists _, _, (jsonCard <$> parseCards cardsStr).
  split; [reflexivity|]. simpl.
  split_and!; [done|done| | | |].
  - apply jsonCard_parseCards.
  - apply jsonCard_parseCards_ascii.
  - unfold len. rewrite length_app, length_fmap, length_parseCards. lia.
  - unfold len. rewrite !length_app. lia.
Qed.

Lemma addCards_reply_witness :
  ∃ db' d,
    addCards "d" "x,,y" threeCardStore = (db', HttpJSON d)
    ∧ Remaining d = 3 + 1 + 2.
Proof.
  destruct (addCards_reply "d" "x,,y" threeCardStore
              (mkRow [] [] [codeOnly "a"; codeOnly "b"; codeOnly "c"])
              eq_refl)
    as (db' & d & added & H1 & _ & _ & _ & _ & H2 & _).
  exists db', d. split; [exact H1|exact H2].
Defined.

